(** * audio-grab: capture-to-WAV pipeline

    A shallow embedding of the two variants of the recorder:
    - [Streaming] is [main.go]: samples are written to the output file as
      they are captured and the WAV header is patched at the end;
    - [Buffered] is the variant that collects normalised [float64] samples
      and hands them to an encoder through [multiChannelStreamer].
    [findWorkingSampleRate] is the same in both. *)

From Stdlib Require Import String Ascii Strings.Byte.
From Stdlib Require Import ZArith List Bool Lia Arith.
From Stdlib Require Import Floats.
Import ListNotations.

Set Warnings "-inexact-float".
Local Open Scope Z_scope.

(** ** Fixed-width integers

    Go integers are modelled as [Z]; every conversion writes its
    wrap-around out. *)

Definition uint16 (z : Z) : Z := z mod 2 ^ 16.
Definition uint32 (z : Z) : Z := z mod 2 ^ 32.
Definition int16 (z : Z) : Z := (z + 2 ^ 15) mod 2 ^ 16 - 2 ^ 15.

Definition MaxInt16 : Z := 32767.
Definition MinInt16 : Z := -32768.

Definition is_uint16 (z : Z) : Prop := 0 <= z < 2 ^ 16.
Definition is_uint32 (z : Z) : Prop := 0 <= z < 2 ^ 32.
Definition is_int16 (z : Z) : Prop := MinInt16 <= z <= MaxInt16.

(** ** Bytes and little-endian encoding ([encoding/binary]) *)

Definition byte_of_Z (z : Z) : byte :=
  match Byte.of_N (Z.to_N (z mod 256)) with
  | Some b => b
  | None => x00
  end.

Definition Z_of_byte (b : byte) : Z := Z.of_N (Byte.to_N b).

(** [binary.LittleEndian.PutUint16] and [PutUint32]: the low bits of [z],
    least significant byte first (two's complement for a negative [z]). *)
Definition le16 (z : Z) : list byte :=
  [byte_of_Z z; byte_of_Z (z / 256)].

Definition le32 (z : Z) : list byte :=
  [byte_of_Z z; byte_of_Z (z / 256); byte_of_Z (z / 65536);
   byte_of_Z (z / 16777216)].

(** The bytes of a string constant, as [[]byte(s)] gives them. *)
Definition bytes_of_string (s : string) : list byte :=
  List.map byte_of_ascii (list_ascii_of_string s).

(** ** Errors and results *)

Inductive error : Type :=
| ErrInvalid        (* os.ErrInvalid *)
| ErrIO             (* a failed Write or Seek on the output file *)
| ErrRead.          (* a failed stream.Read *)

(** The outcome of a call: a value, a returned error (in [main] every
    error goes to [log.Fatal]), a run-time panic (index out of range), or
    a loop that was cut off by its fuel. *)
Inductive res (A : Type) : Type :=
| Ok (a : A)
| Fail (e : error)
| Panic
| OutOfFuel.

Arguments Ok {A} a.
Arguments Fail {A} e.
Arguments Panic {A}.
Arguments OutOfFuel {A}.

Definition res_bind {A B} (r : res A) (k : A -> res B) : res B :=
  match r with
  | Ok a => k a
  | Fail e => Fail e
  | Panic => Panic
  | OutOfFuel => OutOfFuel
  end.

(** [s[i]] on a slice: out of range panics. *)
Definition index {A} (s : list A) (i : nat) : res A :=
  match nth_error s i with
  | Some x => Ok x
  | None => Panic
  end.

(** ** The output file ([*os.File])

    A random-access file: its bytes, the current offset, and the number of
    further operations the device will carry out before it starts failing
    ([quota]).  [history] records the operations that succeeded. *)

Inductive FileOp : Type :=
| OpSeek (off : nat)
| OpWrite (bs : list byte).

Record File : Type := mkFile {
  contents : list byte;
  offset : nat;
  quota : nat;
  history : list FileOp
}.

(** [os.Create]: an empty file. *)
Definition os_Create (q : nat) : File := mkFile [] 0 q [].

(** Writing [bs] at position [pos]: bytes in place are overwritten, a gap
    past the end is filled with zeros, the file grows as needed. *)
Definition overwrite (c : list byte) (pos : nat) (bs : list byte) : list byte :=
  firstn pos c ++ repeat x00 (pos - length c) ++ bs
  ++ skipn (pos + length bs) c.

(** File actions: the file is threaded through and survives an error. *)
Definition io (A : Type) : Type := File -> File * res A.

Definition ret {A} (a : A) : io A := fun w => (w, Ok a).

Definition bind {A B} (m : io A) (k : A -> io B) : io B :=
  fun w =>
    match m w with
    | (w', Ok a) => k a w'
    | (w', Fail e) => (w', Fail e)
    | (w', Panic) => (w', Panic)
    | (w', OutOfFuel) => (w', OutOfFuel)
    end.

Declare Scope io_scope.
Delimit Scope io_scope with io.
Notation "x <- m ;; k" := (bind m (fun x => k))
  (at level 61, m at next level, right associativity) : io_scope.
Notation "m ;;; k" := (bind m (fun _ => k))
  (at level 61, right associativity) : io_scope.

Definition lift {A} (r : res A) : io A := fun w => (w, r).

(** [w.Write(bs)].  A call the device carries out writes all of [bs].  A
    call it does not carry out is taken to write nothing and to return the
    error; the operating system may in fact leave a leading part of [bs]
    in the file before it reports the error.  What is proved below about
    a failing device is therefore either limited to runs in which no
    write fails, or says only what holds whether or not such a part was
    left. *)
Definition Write (bs : list byte) : io nat :=
  fun w =>
    match quota w with
    | O => (w, Fail ErrIO)
    | S q =>
        (mkFile (overwrite (contents w) (offset w) bs)
                (offset w + length bs) q
                (history w ++ [OpWrite bs]),
         Ok (length bs))
    end.

(** [w.Seek(off, 0)]: position [off] from the start of the file. *)
Definition Seek (off : Z) : io Z :=
  fun w =>
    match quota w with
    | O => (w, Fail ErrIO)
    | S q =>
        if off <? 0 then (w, Fail ErrInvalid)
        else (mkFile (contents w) (Z.to_nat off) q
                     (history w ++ [OpSeek (Z.to_nat off)]),
              Ok off)
    end.

(** [binary.Write(w, binary.LittleEndian, v)] at the three types used. *)
Definition binary_Write_uint32 (v : Z) : io unit :=
  (Write (le32 v) ;;; ret tt)%io.
Definition binary_Write_uint16 (v : Z) : io unit :=
  (Write (le16 v) ;;; ret tt)%io.
Definition binary_Write_int16 (v : Z) : io unit :=
  (Write (le16 v) ;;; ret tt)%io.

(** ** The WAV header *)

Definition writeWavHeader (sampleRate numChannels bitsPerSample dataSize : Z)
  : io unit :=
  let blockAlign := uint16 (numChannels * uint16 bitsPerSample) / 8 in
  let byteRate := uint32 (sampleRate * uint32 blockAlign) in
  (Write (bytes_of_string "RIFF"%string) ;;;
   binary_Write_uint32 (uint32 (36 + dataSize)) ;;;
   Write (bytes_of_string "WAVE"%string) ;;;
   Write (bytes_of_string "fmt "%string) ;;;
   binary_Write_uint32 (uint32 16) ;;;
   binary_Write_uint16 (uint16 1) ;;;
   binary_Write_uint16 numChannels ;;;
   binary_Write_uint32 sampleRate ;;;
   binary_Write_uint32 byteRate ;;;
   binary_Write_uint16 blockAlign ;;;
   binary_Write_uint16 (uint16 bitsPerSample) ;;;
   Write (bytes_of_string "data"%string) ;;;
   binary_Write_uint32 dataSize)%io.

(** The chunks [writeWavHeader] hands to [Write], in order. *)
Definition wavHeaderChunks (sampleRate numChannels bitsPerSample dataSize : Z)
  : list (list byte) :=
  let blockAlign := uint16 (numChannels * uint16 bitsPerSample) / 8 in
  let byteRate := uint32 (sampleRate * uint32 blockAlign) in
  [bytes_of_string "RIFF"%string; le32 (uint32 (36 + dataSize));
   bytes_of_string "WAVE"%string; bytes_of_string "fmt "%string;
   le32 (uint32 16); le16 (uint16 1); le16 numChannels; le32 sampleRate;
   le32 byteRate; le16 blockAlign; le16 (uint16 bitsPerSample);
   bytes_of_string "data"%string; le32 dataSize].

Definition updateWavHeader (dataSize : Z) : io unit :=
  (Seek 4 ;;;
   binary_Write_uint32 (uint32 (36 + dataSize)) ;;;
   Seek 40 ;;;
   binary_Write_uint32 (uint32 dataSize))%io.

(** ** Reading a header back

    The byte layout of the 44-byte canonical header, read field by field:
    what a decoder of the format sees. *)

Definition byte_at (bs : list byte) (i : nat) : Z :=
  Z_of_byte (nth i bs x00).

Definition u16_at (bs : list byte) (off : nat) : Z :=
  byte_at bs off + 256 * byte_at bs (off + 1).

Definition u32_at (bs : list byte) (off : nat) : Z :=
  byte_at bs off + 256 * byte_at bs (off + 1)
  + 65536 * byte_at bs (off + 2) + 16777216 * byte_at bs (off + 3).

Definition tag_at (bs : list byte) (off : nat) : list byte :=
  firstn 4 (skipn off bs).

Record WavHeader : Type := mkWavHeader {
  ChunkSize : Z;
  Subchunk1Size : Z;
  AudioFormat : Z;
  NumChannels : Z;
  SampleRate : Z;
  ByteRate : Z;
  BlockAlign : Z;
  BitsPerSample : Z;
  Subchunk2Size : Z
}.

Definition decodeWavHeader (bs : list byte) : WavHeader :=
  mkWavHeader (u32_at bs 4) (u32_at bs 16) (u16_at bs 20) (u16_at bs 22)
              (u32_at bs 24) (u32_at bs 28) (u16_at bs 32) (u16_at bs 34)
              (u32_at bs 40).

(** ** Floating point ([float64])

    [float64] is the kernel's binary64 type, so that the arithmetic of the
    program is the arithmetic of the model, rounding included. *)

Definition float64_of_int (z : Z) : float :=
  if z <? 0 then PrimFloat.opp (PrimFloat.of_uint63 (Uint63.of_Z (- z)))
  else PrimFloat.of_uint63 (Uint63.of_Z z).

(** The integer part of a finite float (rounding toward zero). *)
Definition float64_trunc (f : float) : option Z :=
  match Prim2SF f with
  | S754_zero _ => Some 0
  | S754_finite sgn m e =>
      let mag := if 0 <=? e then Z.shiftl (Z.pos m) e
                 else Z.shiftr (Z.pos m) (- e) in
      Some (if sgn then - mag else mag)
  | S754_infinity _ => None
  | S754_nan => None
  end.

(** [int16(f)] for a non-constant [f].  Go leaves the result open when the
    value does not fit; the compiler converts to a 32-bit integer and keeps
    the low 16 bits, which is the wrap-around written here.  Where even the
    32-bit conversion fails the low bits of its result are zero (amd64). *)
Definition int16_of_float64 (f : float) : Z :=
  match float64_trunc f with
  | Some z => if (- 2 ^ 31 <=? z) && (z <? 2 ^ 31) then int16 z else 0
  | None => 0
  end.

(** [uint32(f)]: through a 64-bit integer, low 32 bits kept. *)
Definition uint32_of_float64 (f : float) : Z :=
  match float64_trunc f with
  | Some z => if (- 2 ^ 63 <=? z) && (z <? 2 ^ 63) then uint32 z else 0
  | None => 0
  end.

Definition int16ToFloat64 (s : Z) : float :=
  (float64_of_int s / float64_of_int MaxInt16)%float.

(** ** Sample-rate negotiation ([findWorkingSampleRate]) *)

Module portaudio.

Record DeviceInfo : Type := mkDeviceInfo {
  Name : string;
  MaxInputChannels : Z;
  DefaultLowInputLatency : Z
}.

Record StreamDeviceParameters : Type := mkStreamDeviceParameters {
  Device : option DeviceInfo;
  Channels : Z;
  Latency : Z
}.

Record StreamParameters : Type := mkStreamParameters {
  Input : StreamDeviceParameters;
  Output : StreamDeviceParameters;
  SampleRate : float;
  FramesPerBuffer : Z
}.

(** The zero value of [StreamDeviceParameters]. *)
Definition noDevice : StreamDeviceParameters :=
  mkStreamDeviceParameters None 0 0.

End portaudio.

Section Negotiation.

(** The capability probe of the device layer,
    [portaudio.IsFormatSupported(params, []int16{})]: [None] is a nil
    error. *)
Variable IsFormatSupported : portaudio.StreamParameters -> option error.

Variable framesPerBuf : nat.
Variable channels : nat.
Variable possibleSampleRates : list float.

Definition probeParams (dev : portaudio.DeviceInfo) (rate : float)
  : portaudio.StreamParameters :=
  portaudio.mkStreamParameters
    (portaudio.mkStreamDeviceParameters
       (Some dev) (Z.of_nat channels)
       (portaudio.DefaultLowInputLatency dev))
    portaudio.noDevice
    rate
    (Z.of_nat framesPerBuf).

(** The [range] loop of [findWorkingSampleRate] over the rates still to
    be tried. *)
Fixpoint tryRates (dev : portaudio.DeviceInfo) (rates : list float)
  : float * option error :=
  match rates with
  | [] => (0%float, Some ErrInvalid)
  | rate :: rest =>
      match IsFormatSupported (probeParams dev rate) with
      | None => (rate, None)
      | Some _ => tryRates dev rest
      end
  end.

Definition findWorkingSampleRate (dev : portaudio.DeviceInfo)
  : float * option error :=
  tryRates dev possibleSampleRates.

(** Whether the device takes [rate]. *)
Definition supports (dev : portaudio.DeviceInfo) (rate : float) : bool :=
  match IsFormatSupported (probeParams dev rate) with
  | None => true
  | Some _ => false
  end.

End Negotiation.

(** A device that takes exactly the listed rates, whatever the rest of the
    parameters. *)
Definition supportsOnly (rates : list float)
  : portaudio.StreamParameters -> option error :=
  fun params =>
    if existsb (PrimFloat.eqb (portaudio.SampleRate params)) rates
    then None else Some ErrInvalid.

Definition someDevice : portaudio.DeviceInfo :=
  portaudio.mkDeviceInfo "mic"%string 2 0.

(** ** The streaming recorder ([main.go]) *)

Module Streaming.

Definition framesPerBuf : nat := 512.
Definition channels : nat := 1.
Definition deviceIndex : nat := 4.
Definition volume : float := 1%float.
Definition bitsPerSample : Z := 16.
Definition possibleSampleRates : list float :=
  [44100; 48000; 16000; 32000]%float.

(** What one iteration of the recording loop finds: a block from
    [stream.Read], or its error.  The list of these ends where the stop
    signal arrives. *)
Inductive capture : Type :=
| ReadOk (buffer : list Z)
| ReadFail.

Section Recorder.

(** The two constants the claims range over. *)
Variable channels : nat.
Variable volume : float.

(** The [writeSample] closure. *)
Definition gained (s : Z) : Z :=
  int16_of_float64 (float64_of_int s * volume)%float.

Definition writeSample (s : Z) : io unit :=
  binary_Write_int16 (gained s).

(** The inner loop of the [default] case,
    [for ch := 0; ch < channels && i+ch < len(buffer); ch++];
    [n] is [channels - ch]. *)
Fixpoint sumChannels (buffer : list Z) (i n ch : nat) (sum : Z) : res Z :=
  match n with
  | O => Ok sum
  | S n' =>
      if (i + ch <? length buffer)%nat then
        res_bind (index buffer (i + ch)%nat)
                 (fun x => sumChannels buffer i n' (S ch) (sum + x))
      else Ok sum
  end.

(** The body of [for i := 0; i < len(buffer); i += channels]. *)
Definition frameStep (buffer : list Z) (i : nat) (totalBytesWritten : Z)
  : io Z :=
  match channels with
  | 1%nat =>
      (val <- lift (index buffer i) ;;
       writeSample val ;;;
       ret totalBytesWritten)%io
  | 2%nat =>
      (left <- lift (index buffer i) ;;
       right <- lift (index buffer (i + 1)%nat) ;;
       writeSample left ;;;
       writeSample right ;;;
       ret (totalBytesWritten + 4))%io
  | _ =>
      (sum <- lift (sumChannels buffer i channels 0 0) ;;
       let avg := int16 (Z.quot sum (Z.of_nat channels)) in
       writeSample avg ;;;
       writeSample avg ;;;
       ret (totalBytesWritten + 4))%io
  end.

Fixpoint blockLoop (buffer : list Z) (fuel i : nat) (totalBytesWritten : Z)
  : io Z :=
  if (i <? length buffer)%nat then
    match fuel with
    | O => lift OutOfFuel
    | S fuel' =>
        (total <- frameStep buffer i totalBytesWritten ;;
         blockLoop buffer fuel' (i + channels)%nat total)%io
    end
  else ret totalBytesWritten.

Definition processBlock (buffer : list Z) (totalBytesWritten : Z) : io Z :=
  blockLoop buffer (length buffer) 0 totalBytesWritten.

(** [recordingLoop]: the stop signal is the end of the list. *)
Fixpoint recordingLoop (reads : list capture) (totalBytesWritten : Z)
  : io Z :=
  match reads with
  | [] => ret totalBytesWritten
  | ReadFail :: _ => lift (Fail ErrRead)
  | ReadOk buffer :: rest =>
      (total <- processBlock buffer totalBytesWritten ;;
       recordingLoop rest total)%io
  end.

(** [main] from the placeholder header to the patched one. *)
Definition record (sampleRate : float) (reads : list capture) : io unit :=
  (writeWavHeader (uint32_of_float64 sampleRate)
                  (uint16 (Z.of_nat channels)) bitsPerSample 0 ;;;
   total <- recordingLoop reads 0 ;;
   updateWavHeader total)%io.

End Recorder.

End Streaming.

(** Samples written per frame and bytes counted per frame by the loop
    body, by channel count. *)
Definition samplesPerFrame (channels : nat) : nat :=
  match channels with 1%nat => 1%nat | _ => 2%nat end.

Definition countedPerFrame (channels : nat) : Z :=
  match channels with 1%nat => 0 | _ => 4 end.

(** Every 16-bit sample value, for exhaustive checks. *)
Fixpoint countFrom (n : nat) (z : Z) : list Z :=
  match n with
  | O => []
  | S n' => z :: countFrom n' (z + 1)
  end.

Definition all_int16 : list Z := countFrom (256 * 256) MinInt16.

(** ** The buffering recorder (the second variant) *)

Module Buffered.

Definition framesPerBuf : nat := 512.
Definition channels : nat := 1.
Definition deviceIndex : nat := 4.
Definition volume : float := 2%float.
Definition possibleSampleRates : list float :=
  [44100; 48000; 96000; 16000; 32000; 22050]%float.

(** The body of [for _, s := range buffer]: gain, then the clamp. *)
Definition applyVolume (volume : float) (s : Z) : float :=
  let sample := (int16ToFloat64 s * volume)%float in
  if (1 <? sample)%float then 1%float
  else if (sample <? -1)%float then (-1)%float
  else sample.

Definition collect (volume : float) (samples : list float) (buffer : list Z)
  : list float :=
  fold_left (fun acc s => acc ++ [applyVolume volume s]) buffer samples.

(** [buf[j] = x] on a slice, for [j] in range. *)
Fixpoint update {A} (l : list A) (j : nat) (x : A) : list A :=
  match l, j with
  | [], _ => []
  | _ :: t, O => x :: t
  | h :: t, S j' => h :: update t j' x
  end.

(** [for k := 0; k < ch && i+k < len(samples); k++]; [n] is [ch - k]. *)
Fixpoint sumLoop (samples : list float) (i n k : nat) (sum : float)
  : res float :=
  match n with
  | O => Ok sum
  | S n' =>
      if (i + k <? length samples)%nat then
        res_bind (index samples (i + k)%nat)
                 (fun x => sumLoop samples i n' (S k) (sum + x)%float)
      else Ok sum
  end.

(** The [switch ch] of the streamer: the stereo pair of one frame. *)
Definition mixFrame (samples : list float) (ch i : nat)
  : res (float * float) :=
  match ch with
  | 1%nat =>
      res_bind (index samples i) (fun val => Ok (val, val))
  | 2%nat =>
      res_bind (index samples i) (fun l =>
      res_bind (index samples (i + 1)%nat) (fun r => Ok (l, r)))
  | _ =>
      res_bind (sumLoop samples i ch 0 0%float) (fun sum =>
      let avg := (sum / float64_of_int (Z.of_nat ch))%float in
      Ok (avg, avg))
  end.

(** What a call of the streamer leaves: the buffer, the count [n], the
    flag [ok], and the position [i] the closure keeps for the next call. *)
Record streamed : Type := mkStreamed {
  buf : list (float * float);
  n : nat;
  ok : bool;
  next : nat
}.

(** [for j := 0; j < len(buf); j++]; [slots] is [len(buf) - j]. *)
Fixpoint streamLoop (samples : list float) (ch slots j i : nat)
         (b : list (float * float)) : res streamed :=
  match slots with
  | O => Ok (mkStreamed b (length b) true i)
  | S slots' =>
      if (length samples <? i + ch)%nat then Ok (mkStreamed b j false i)
      else
        res_bind (mixFrame samples ch i) (fun frame =>
        streamLoop samples ch slots' (S j) (i + ch)%nat (update b j frame))
  end.

(** One call of the function [multiChannelStreamer] returns, at closure
    state [i]. *)
Definition multiChannelStreamer (samples : list float) (ch : nat)
           (i : nat) (b : list (float * float)) : res streamed :=
  streamLoop samples ch (length b) 0 i b.

Definition silence (len : nat) : list (float * float) :=
  repeat (0%float, 0%float) len.

(** A consumer that calls the streamer with buffers of the given sizes
    until it answers [ok = false]: the frames it was handed, in order,
    and the final position. *)
Fixpoint drain (samples : list float) (ch : nat) (sizes : list nat) (i : nat)
  : res (list (float * float) * nat) :=
  match sizes with
  | [] => Ok ([], i)
  | len :: rest =>
      res_bind (multiChannelStreamer samples ch i (silence len)) (fun r =>
      if ok r then
        res_bind (drain samples ch rest (next r)) (fun more =>
        Ok (firstn (n r) (buf r) ++ fst more, snd more))
      else Ok (firstn (n r) (buf r), next r))
  end.

(** The [k]-th frame of an interleaved sample sequence and its mean,
    summed in channel order as [float64]. *)
Definition frameAt (samples : list float) (ch k : nat) : list float :=
  firstn ch (skipn (k * ch) samples).

Definition mean (frame : list float) : float :=
  (fold_left PrimFloat.add frame 0
   / float64_of_int (Z.of_nat (length frame)))%float.

(** The stereo pair a complete frame of [ch] channels should give: a mono
    sample on both sides, a stereo pair as it is, the mean of more. *)
Definition pairOf (ch : nat) (frame : list float) : float * float :=
  match ch with
  | 1%nat => (nth 0 frame 0%float, nth 0 frame 0%float)
  | 2%nat => (nth 0 frame 0%float, nth 1 frame 0%float)
  | _ => (mean frame, mean frame)
  end.

(** The pairs of the frames [k0], [k0 + 1], ..., [k0 + m - 1]. *)
Definition pairsOf (samples : list float) (ch k0 m : nat)
  : list (float * float) :=
  List.map (fun k => pairOf ch (frameAt samples ch k)) (seq k0 m).

(** The recording loop of the buffering recorder: every block read is
    gained, clamped and appended to [samples]; the stop signal is the end
    of the list, a failed read is fatal. *)
Fixpoint recordingLoop (volume : float) (reads : list Streaming.capture)
         (samples : list float) : res (list float) :=
  match reads with
  | [] => Ok samples
  | Streaming.ReadFail :: _ => Fail ErrRead
  | Streaming.ReadOk buffer :: rest =>
      recordingLoop volume rest (collect volume samples buffer)
  end.

(** The pairs of a stereo stream laid out as interleaved samples again. *)
Definition interleave (frames : list (float * float)) : list float :=
  flat_map (fun p => [fst p; snd p]) frames.

End Buffered.

(** ** [main] of the streaming recorder, from start to exit

    What the process finds outside itself is gathered in a [Host]: the
    results of the device layer's calls, of [os.Create], and the blocks the
    stream delivers before the stop signal. *)

Module StreamingMain.

Record Host : Type := mkHost {
  Initialize : option error;
  Devices : list portaudio.DeviceInfo * option error;
  IsFormatSupported : portaudio.StreamParameters -> option error;
  OpenStream : portaudio.StreamParameters -> option error;
  Create : error + nat;
  Start : option error;
  Reads : list Streaming.capture
}.

(** How the process ends: the devices it listed (index and name), the
    output file if it got as far as creating one, and its outcome. *)
Record Exit : Type := mkExit {
  listed : list (nat * string);
  outFile : option File;
  status : res unit
}.

(** [for i, dev := range devices]: the devices with enough input channels
    are logged with their index. *)
Fixpoint listDevices (channels : nat) (i : nat)
         (devices : list portaudio.DeviceInfo) : list (nat * string) :=
  match devices with
  | [] => []
  | dev :: rest =>
      if Z.of_nat channels <=? portaudio.MaxInputChannels dev
      then (i, portaudio.Name dev) :: listDevices channels (S i) rest
      else listDevices channels (S i) rest
  end.

(** [stream.Start()] between the header and the loop. *)
Definition startStream (host : Host) : io unit :=
  fun w => (w, match Start host with None => Ok tt | Some err => Fail err end).

(** What [main] does with the file once it is created. *)
Definition session (channels : nat) (volume : float) (host : Host)
           (sampleRate : float) : io unit :=
  (writeWavHeader (uint32_of_float64 sampleRate)
                  (uint16 (Z.of_nat channels)) Streaming.bitsPerSample 0 ;;;
   startStream host ;;;
   total <- Streaming.recordingLoop channels volume (Reads host) 0 ;;
   updateWavHeader total)%io.

Definition main (channels : nat) (volume : float) (host : Host) : Exit :=
  match Initialize host with
  | Some err => mkExit [] None (Fail err)
  | None =>
  match Devices host with
  | (_, Some err) => mkExit [] None (Fail err)
  | (devices, None) =>
  let shown := listDevices channels 0 devices in
  match nth_error devices Streaming.deviceIndex with
  | None => mkExit shown None Panic
  | Some device =>
  match findWorkingSampleRate (IsFormatSupported host) Streaming.framesPerBuf
                              channels Streaming.possibleSampleRates device with
  | (_, Some err) => mkExit shown None (Fail err)
  | (sampleRate, None) =>
  match OpenStream host (probeParams Streaming.framesPerBuf channels
                                     device sampleRate) with
  | Some err => mkExit shown None (Fail err)
  | None =>
  match Create host with
  | inl err => mkExit shown None (Fail err)
  | inr q =>
      let run := session channels volume host sampleRate (os_Create q) in
      mkExit shown (Some (fst run)) (snd run)
  end end end end end end.

End StreamingMain.

(** ** Accounting for file actions that only append

    [wrote w w' chunks]: [w'] is [w] with [chunks] written at its end, one
    [Write] and one unit of [quota] each, and nothing else done. *)

Definition wrote (w w' : File) (chunks : list (list byte)) : Prop :=
  contents w' = contents w ++ concat chunks
  /\ offset w' = length (contents w')
  /\ history w' = history w ++ List.map OpWrite chunks
  /\ quota w = (quota w' + length chunks)%nat.

(** An action that, on a file positioned at its end, only writes chunks
    satisfying [P] there. *)
Definition appender {A} (P : list byte -> Prop) (m : io A) : Prop :=
  forall w, offset w = length (contents w) ->
            exists chunks, wrote w (fst (m w)) chunks /\ Forall P chunks.

(** A value of the result type that is not a panic and not a cut-off
    loop. *)
Definition returns {A} (r : res A) : Prop :=
  match r with
  | Ok _ => True
  | Fail _ => True
  | Panic => False
  | OutOfFuel => False
  end.

(** The samples of a list of blocks, each as its two bytes after the
    gain. *)
Definition encoded (volume : float) (samples : list Z) : list (list byte) :=
  List.map (fun s => le16 (Streaming.gained volume s)) samples.


(** The samples the stream delivers in a run of reads; the recording
    loop attempts at most two writes for each. *)
Definition samplesRead (reads : list Streaming.capture) : nat :=
  list_sum (List.map (fun r => match r with
                               | Streaming.ReadOk buffer => length buffer
                               | Streaming.ReadFail => 0%nat
                               end) reads).

(** An action that, on a file positioned at its end whose device carries
    out [n] more operations, writes at most [n] two-byte chunks there and
    meets no failing write. *)
Definition steady {A} (n : nat) (m : io A) : Prop :=
  forall w, offset w = length (contents w) -> (n <= quota w)%nat ->
            exists chunks,
              wrote w (fst (m w)) chunks
              /\ Forall (fun c => length c = 2%nat) chunks
              /\ (length chunks <= n)%nat
              /\ snd (m w) <> Fail ErrIO.

(** * Properties *)

(** ** Bytes *)

Lemma Z_of_byte_of_Z (z : Z) : Z_of_byte (byte_of_Z z) = z mod 256.
Proof.
  unfold Z_of_byte, byte_of_Z.
  assert (H : 0 <= z mod 256 < 256) by (apply Z.mod_pos_bound; lia).
  destruct (Byte.of_N (Z.to_N (z mod 256))) as [b|] eqn:E.
  - apply Byte.to_of_N in E. rewrite E. rewrite Z2N.id; lia.
  - apply Byte.of_N_None_iff in E. lia.
Qed.

Lemma byte_of_Z_mod (a b : Z) : a mod 256 = b mod 256 -> byte_of_Z a = byte_of_Z b.
Proof. unfold byte_of_Z. intros ->. reflexivity. Qed.

(** Four base-256 digits make the low 32 bits. *)
Lemma digits32 (z : Z) :
  z mod 256 + 256 * ((z / 256) mod 256) + 65536 * ((z / 65536) mod 256)
  + 16777216 * ((z / 16777216) mod 256) = z mod 2 ^ 32.
Proof.
  assert (E2 : z / 65536 = z / 256 / 256)
    by (rewrite Z.div_div by lia; reflexivity).
  assert (E3 : z / 16777216 = z / 256 / 256 / 256)
    by (rewrite !Z.div_div by lia; reflexivity).
  rewrite E2, E3.
  pose proof (Z.div_mod z 256 ltac:(lia)) as D0.
  pose proof (Z.div_mod (z / 256) 256 ltac:(lia)) as D1.
  pose proof (Z.div_mod (z / 256 / 256) 256 ltac:(lia)) as D2.
  pose proof (Z.div_mod (z / 256 / 256 / 256) 256 ltac:(lia)) as D3.
  pose proof (Z.mod_pos_bound z 256 ltac:(lia)).
  pose proof (Z.mod_pos_bound (z / 256) 256 ltac:(lia)).
  pose proof (Z.mod_pos_bound (z / 256 / 256) 256 ltac:(lia)).
  pose proof (Z.mod_pos_bound (z / 256 / 256 / 256) 256 ltac:(lia)).
  apply Z.mod_unique with (q := z / 256 / 256 / 256 / 256).
  - left. change (2 ^ 32) with 4294967296. lia.
  - change (2 ^ 32) with 4294967296. lia.
Qed.

Lemma digits16 (z : Z) :
  z mod 256 + 256 * ((z / 256) mod 256) = z mod 2 ^ 16.
Proof.
  pose proof (Z.div_mod z 256 ltac:(lia)) as D0.
  pose proof (Z.div_mod (z / 256) 256 ltac:(lia)) as D1.
  pose proof (Z.mod_pos_bound z 256 ltac:(lia)).
  pose proof (Z.mod_pos_bound (z / 256) 256 ltac:(lia)).
  apply Z.mod_unique with (q := z / 256 / 256).
  - left. change (2 ^ 16) with 65536. lia.
  - change (2 ^ 16) with 65536. lia.
Qed.

(** Only the low 32 bits of a value reach its encoding. *)
Lemma le32_uint32 (z : Z) : le32 (uint32 z) = le32 z.
Proof.
  unfold le32, uint32. change (2 ^ 32) with 4294967296.
  pose proof (Z.div_mod z 4294967296 ltac:(lia)) as D.
  remember (z mod 4294967296) as r eqn:Hr.
  remember (z / 4294967296) as q eqn:Hq. clear Hr Hq. subst z.
  assert (E : forall k m, m * k = 16777216 -> 0 < k ->
                (r / k) mod 256 = ((4294967296 * q + r) / k) mod 256).
  { intros k m Hk Hpos.
    replace (4294967296 * q + r) with (r + (256 * m * q) * k)
      by (replace 4294967296 with (256 * (m * k)) by (now rewrite Hk); ring).
    rewrite Z.div_add by lia.
    replace (256 * m * q) with (m * q * 256) by lia.
    now rewrite Z.mod_add by lia. }
  assert (E0 : r mod 256 = (4294967296 * q + r) mod 256).
  { replace (4294967296 * q + r) with (r + (16777216 * q) * 256) by lia.
    now rewrite Z.mod_add by lia. }
  rewrite (byte_of_Z_mod _ _ E0).
  rewrite (byte_of_Z_mod _ _ (E 256 65536 eq_refl eq_refl)).
  rewrite (byte_of_Z_mod _ _ (E 65536 256 eq_refl eq_refl)).
  rewrite (byte_of_Z_mod _ _ (E 16777216 1 eq_refl eq_refl)).
  reflexivity.
Qed.

Lemma length_le32 (z : Z) : length (le32 z) = 4%nat.
Proof. reflexivity. Qed.

Lemma length_le16 (z : Z) : length (le16 z) = 2%nat.
Proof. reflexivity. Qed.

Lemma nth_app_off {A} (pre l : list A) (k : nat) (d : A) :
  nth (length pre + k) (pre ++ l) d = nth k l d.
Proof. induction pre as [|x pre IH]; [reflexivity | exact IH]. Qed.

Lemma nth_app_off0 {A} (pre l : list A) (d : A) :
  nth (length pre) (pre ++ l) d = nth 0 l d.
Proof. rewrite <- (nth_app_off pre l 0 d). f_equal. lia. Qed.

(** Decoding four bytes that were encoded by [le32]. *)
Lemma u32_at_le32 (pre post : list byte) (z : Z) :
  u32_at (pre ++ le32 z ++ post) (length pre) = z mod 2 ^ 32.
Proof.
  unfold u32_at, byte_at.
  rewrite nth_app_off0, !nth_app_off. unfold le32.
  cbn [nth app]. rewrite !Z_of_byte_of_Z. apply digits32.
Qed.

Lemma u16_at_le16 (pre post : list byte) (z : Z) :
  u16_at (pre ++ le16 z ++ post) (length pre) = z mod 2 ^ 16.
Proof.
  unfold u16_at, byte_at.
  rewrite nth_app_off0, !nth_app_off. unfold le16.
  cbn [nth app]. rewrite !Z_of_byte_of_Z. apply digits16.
Qed.

(** ** The file *)

Lemma overwrite_at_end (c bs : list byte) : overwrite c (length c) bs = c ++ bs.
Proof.
  unfold overwrite.
  rewrite firstn_all, Nat.sub_diag, skipn_all2 by lia.
  cbn [repeat app]. now rewrite app_nil_r.
Qed.

Lemma length_overwrite (c bs : list byte) (pos : nat) :
  length (overwrite c pos bs) = Nat.max (length c) (pos + length bs).
Proof.
  unfold overwrite.
  rewrite !length_app, length_firstn, repeat_length, length_skipn. lia.
Qed.

(** Bytes outside the written range keep their value. *)
Lemma nth_error_overwrite_outside (c bs : list byte) (pos i : nat) :
  (i < length c)%nat -> (i < pos \/ pos + length bs <= i)%nat ->
  nth_error (overwrite c pos bs) i = nth_error c i.
Proof.
  intros Hi Hout. unfold overwrite.
  destruct (Nat.lt_ge_cases i pos) as [Hlt | Hge].
  - rewrite nth_error_app1 by (rewrite length_firstn; lia).
    rewrite nth_error_firstn.
    destruct (Nat.ltb_spec i pos); [reflexivity | lia].
  - assert (Hpos : (pos <= length c)%nat) by lia.
    rewrite nth_error_app2 by (rewrite length_firstn; lia).
    rewrite length_firstn, Nat.min_l by lia.
    replace (pos - length c)%nat with 0%nat by lia. cbn [repeat app].
    rewrite nth_error_app2 by lia.
    rewrite nth_error_skipn. f_equal. lia.
Qed.

(** Bytes inside the written range are the written ones. *)
Lemma nth_overwrite_inside (c bs : list byte) (pos k : nat) (d : byte) :
  (k < length bs)%nat ->
  nth (pos + k) (overwrite c pos bs) d = nth k bs d.
Proof.
  intros Hk. unfold overwrite. rewrite app_assoc.
  assert (L : length (firstn pos c ++ repeat x00 (pos - length c)) = pos)
    by (rewrite length_app, length_firstn, repeat_length; lia).
  rewrite <- L at 1. rewrite nth_app_off. now rewrite app_nth1.
Qed.

Lemma nth_nth_error {A} (l : list A) (i : nat) (d : A) :
  nth i l d = match nth_error l i with Some x => x | None => d end.
Proof.
  revert i. induction l as [|x l IH]; intros [|i]; cbn; auto.
Qed.

Lemma u32_at_overwrite (c : list byte) (pos : nat) (z : Z) :
  u32_at (overwrite c pos (le32 z)) pos = z mod 2 ^ 32.
Proof.
  unfold u32_at, byte_at.
  rewrite <- (Nat.add_0_r pos) at 1.
  rewrite !nth_overwrite_inside by (rewrite length_le32; lia).
  unfold le32. cbn [nth]. rewrite !Z_of_byte_of_Z. apply digits32.
Qed.

(** A later write elsewhere does not disturb a field. *)
Lemma u32_at_overwrite_outside (c bs : list byte) (pos off : nat) :
  (off + 4 <= length c)%nat -> (off + 4 <= pos \/ pos + length bs <= off)%nat ->
  u32_at (overwrite c pos bs) off = u32_at c off.
Proof.
  intros Hlen Hout. unfold u32_at, byte_at.
  rewrite !(nth_nth_error (overwrite c pos bs)), !(nth_nth_error c).
  rewrite !nth_error_overwrite_outside by lia. reflexivity.
Qed.

Lemma Write_at_end (c : list byte) (q : nat) (h : list FileOp) (bs : list byte) :
  Write bs (mkFile c (length c) (S q) h)
  = (mkFile (c ++ bs) (length (c ++ bs)) q (h ++ [OpWrite bs]), Ok (length bs)).
Proof.
  unfold Write. cbn [quota contents offset history].
  now rewrite overwrite_at_end, length_app.
Qed.

(** On a healthy file positioned at its end, [writeWavHeader] appends its
    thirteen chunks and returns nil. *)
Lemma writeWavHeader_appends (c : list byte) (q : nat) (h : list FileOp)
      (sampleRate numChannels bitsPerSample dataSize : Z) :
  writeWavHeader sampleRate numChannels bitsPerSample dataSize
                 (mkFile c (length c) (13 + q) h)
  = (mkFile
       (c ++ concat (wavHeaderChunks sampleRate numChannels bitsPerSample dataSize))
       (length c + 44) q
       (h ++ List.map OpWrite
          (wavHeaderChunks sampleRate numChannels bitsPerSample dataSize)),
     Ok tt).
Proof.
  unfold writeWavHeader, wavHeaderChunks, binary_Write_uint32,
    binary_Write_uint16, bind, ret.
  cbn [Nat.add]. rewrite !Write_at_end.
  cbn [concat List.map]. rewrite <- !app_assoc. cbn [app].
  f_equal. f_equal.
  rewrite !length_app, !length_le32, !length_le16. cbn. lia.
Qed.

Lemma uint32_small (z : Z) : is_uint32 z -> uint32 z = z.
Proof. intros H. apply Z.mod_small. exact H. Qed.

Lemma uint16_small (z : Z) : is_uint16 z -> uint16 z = z.
Proof. intros H. apply Z.mod_small. exact H. Qed.

Lemma uint32_range (z : Z) : is_uint32 (uint32 z).
Proof. apply Z.mod_pos_bound. reflexivity. Qed.

Lemma uint16_range (z : Z) : is_uint16 (uint16 z).
Proof. apply Z.mod_pos_bound. reflexivity. Qed.

(** The fields of a freshly written header, read back. *)
Lemma decode_wavHeaderChunks (sampleRate numChannels bitsPerSample dataSize : Z)
      (rest : list byte) :
  decodeWavHeader
    (concat (wavHeaderChunks sampleRate numChannels bitsPerSample dataSize)
     ++ rest)
  = mkWavHeader
      (uint32 (36 + dataSize)) 16 1 (uint16 numChannels) (uint32 sampleRate)
      (uint32 (sampleRate
               * uint32 (uint16 (numChannels * uint16 bitsPerSample) / 8)))
      (uint16 (uint16 (numChannels * uint16 bitsPerSample) / 8))
      (uint16 bitsPerSample) (uint32 dataSize).
Proof.
  unfold decodeWavHeader, wavHeaderChunks, u32_at, u16_at, byte_at.
  cbn [concat app le32 le16 bytes_of_string list_ascii_of_string List.map
       nth Nat.add].
  rewrite !Z_of_byte_of_Z, !digits32, !digits16.
  fold (uint32 (uint32 (36 + dataSize))). fold (uint32 (uint32 16)).
  fold (uint16 (uint16 1)). fold (uint16 numChannels).
  fold (uint32 sampleRate). fold (uint32 dataSize).
  fold (uint16 (uint16 bitsPerSample)).
  fold (uint16 (uint16 (numChannels * uint16 bitsPerSample) / 8)).
  fold (uint32 (uint32 (sampleRate
          * uint32 (uint16 (numChannels * uint16 bitsPerSample) / 8)))).
  rewrite !(uint32_small (uint32 _)) by apply uint32_range.
  rewrite !(uint16_small (uint16 bitsPerSample)) by apply uint16_range.
  reflexivity.
Qed.

(** ** The header written by [writeWavHeader] *)

(** C4, as amended.  For a 32-bit [sampleRate] and [dataSize] and a 16-bit
    [numChannels] and [bitsPerSample], [writeWavHeader] on a fresh healthy
    file returns nil and leaves exactly 44 bytes; read back, they give the
    same four values, [AudioFormat = 1], [Subchunk1Size = 16] and the four
    tags at offsets 0, 8, 12 and 36.  The derived fields hold in the
    arithmetic of their width: [ChunkSize = (36 + dataSize) mod 2^32],
    [BlockAlign = ((numChannels * bitsPerSample) mod 2^16) / 8],
    [ByteRate = (sampleRate * BlockAlign) mod 2^32], [Subchunk2Size =
    dataSize]; so they are the plain sums and products whenever those do
    not overflow. *)
Theorem wav_header_round_trip
        (sampleRate numChannels bitsPerSample dataSize : Z) (q : nat) :
  is_uint32 sampleRate -> is_uint16 numChannels ->
  is_uint16 bitsPerSample -> is_uint32 dataSize ->
  exists w,
    writeWavHeader sampleRate numChannels bitsPerSample dataSize
                   (os_Create (13 + q)) = (w, Ok tt)
    /\ length (contents w) = 44%nat
    /\ SampleRate (decodeWavHeader (contents w)) = sampleRate
    /\ NumChannels (decodeWavHeader (contents w)) = numChannels
    /\ BitsPerSample (decodeWavHeader (contents w)) = bitsPerSample
    /\ Subchunk2Size (decodeWavHeader (contents w)) = dataSize
    /\ ChunkSize (decodeWavHeader (contents w)) = (36 + dataSize) mod 2 ^ 32
    /\ BlockAlign (decodeWavHeader (contents w))
       = (numChannels * bitsPerSample) mod 2 ^ 16 / 8
    /\ ByteRate (decodeWavHeader (contents w))
       = (sampleRate * BlockAlign (decodeWavHeader (contents w))) mod 2 ^ 32
    /\ AudioFormat (decodeWavHeader (contents w)) = 1
    /\ Subchunk1Size (decodeWavHeader (contents w)) = 16
    /\ tag_at (contents w) 0 = bytes_of_string "RIFF"%string
    /\ tag_at (contents w) 8 = bytes_of_string "WAVE"%string
    /\ tag_at (contents w) 12 = bytes_of_string "fmt "%string
    /\ tag_at (contents w) 36 = bytes_of_string "data"%string
    /\ (36 + dataSize < 2 ^ 32 ->
        ChunkSize (decodeWavHeader (contents w)) = 36 + dataSize)
    /\ (numChannels * bitsPerSample < 2 ^ 16 ->
        BlockAlign (decodeWavHeader (contents w))
        = numChannels * bitsPerSample / 8)
    /\ (numChannels * bitsPerSample < 2 ^ 16 ->
        sampleRate * (numChannels * bitsPerSample / 8) < 2 ^ 32 ->
        ByteRate (decodeWavHeader (contents w))
        = sampleRate * (numChannels * bitsPerSample / 8)).
Proof.
  intros Hsr Hnc Hbps Hds.
  pose proof (writeWavHeader_appends [] q [] sampleRate numChannels
                bitsPerSample dataSize) as Hw.
  cbn [length app] in Hw. change (os_Create (13 + q)) with
    (mkFile [] 0 (13 + q) []).
  eexists. split; [exact Hw |]. cbn [contents].
  pose proof (decode_wavHeaderChunks sampleRate numChannels bitsPerSample
                dataSize []) as Hd.
  rewrite app_nil_r in Hd. rewrite Hd. cbn [SampleRate NumChannels
    BitsPerSample Subchunk2Size ChunkSize BlockAlign ByteRate AudioFormat
    Subchunk1Size].
  rewrite (uint16_small bitsPerSample Hbps).
  assert (Hba : is_uint16 (uint16 (numChannels * bitsPerSample) / 8)).
  { pose proof (uint16_range (numChannels * bitsPerSample)) as R.
    unfold is_uint16 in *. split.
    - apply Z.div_pos; lia.
    - apply Z.div_lt_upper_bound; lia. }
  rewrite (uint16_small _ Hba).
  assert (Hba32 : is_uint32 (uint16 (numChannels * bitsPerSample) / 8)).
  { unfold is_uint32, is_uint16 in *. change (2 ^ 32) with 4294967296.
    change (2 ^ 16) with 65536 in Hba. lia. }
  rewrite (uint32_small _ Hba32).
  assert (Hmul : 0 <= numChannels * bitsPerSample)
    by (unfold is_uint16 in *; nia).
  repeat split.
  - apply uint32_small, Hsr.
  - apply uint16_small, Hnc.
  - apply uint32_small, Hds.
  - intros Hlt. apply Z.mod_small. unfold is_uint32 in Hds. lia.
  - intros Hlt. unfold uint16. rewrite Z.mod_small by lia. reflexivity.
  - intros Hlt Hlt'. unfold uint16, uint32.
    rewrite (Z.mod_small (numChannels * bitsPerSample)) by lia.
    apply Z.mod_small. split; [| exact Hlt'].
    apply Z.mul_nonneg_nonneg; [unfold is_uint32 in Hsr; lia |].
    apply Z.div_pos; lia.
Qed.

Lemma wav_header_round_trip_witness :
  exists w,
    writeWavHeader 16000 1 16 0 (os_Create 13) = (w, Ok tt)
    /\ decodeWavHeader (contents w)
       = mkWavHeader 36 16 1 1 16000 32000 2 16 0.
Proof.
  destruct (wav_header_round_trip 16000 1 16 0 0) as (w & Hw & _);
    try (unfold is_uint32, is_uint16; lia).
  exists w. split; [exact Hw |].
  vm_compute in Hw. injection Hw as <-. vm_compute. reflexivity.
Defined.

(** C4 as stated fails where a value does not fit its field:
    [bitsPerSample] is an [int] and only its low 16 bits are stored, and
    [36 + dataSize] is reduced to 32 bits. *)
Lemma wav_header_round_trip_counterexample :
  let w := fst (writeWavHeader 16000 1 65552 4294967295 (os_Create 13)) in
  BitsPerSample (decodeWavHeader (contents w)) = 16
  /\ BitsPerSample (decodeWavHeader (contents w)) <> 65552
  /\ ChunkSize (decodeWavHeader (contents w)) = 35
  /\ ChunkSize (decodeWavHeader (contents w)) <> 36 + 4294967295.
Proof. vm_compute. repeat split; discriminate. Qed.

(** ** Finalisation ([updateWavHeader]) *)

(** What [updateWavHeader] does to a file, by the number of operations the
    device still carries out. *)
Lemma updateWavHeader_cases (dataSize : Z) (w : File) :
  let b4 := le32 (36 + dataSize) in
  let b40 := le32 dataSize in
  updateWavHeader dataSize w =
  match quota w with
  | 0%nat => (w, Fail ErrIO)
  | 1%nat =>
      (mkFile (contents w) 4 0 (history w ++ [OpSeek 4]), Fail ErrIO)
  | 2%nat =>
      (mkFile (overwrite (contents w) 4 b4) 8 0
              ((history w ++ [OpSeek 4]) ++ [OpWrite b4]), Fail ErrIO)
  | 3%nat =>
      (mkFile (overwrite (contents w) 4 b4) 40 0
              (((history w ++ [OpSeek 4]) ++ [OpWrite b4]) ++ [OpSeek 40]),
       Fail ErrIO)
  | S (S (S (S q))) =>
      (mkFile (overwrite (overwrite (contents w) 4 b4) 40 b40) 44 q
              ((((history w ++ [OpSeek 4]) ++ [OpWrite b4]) ++ [OpSeek 40])
               ++ [OpWrite b40]),
       Ok tt)
  end.
Proof.
  intros b4 b40. subst b4 b40.
  unfold updateWavHeader, binary_Write_uint32, bind, ret, Seek, Write.
  rewrite !le32_uint32.
  destruct w as [c o qt h]. cbn [quota contents offset history].
  destruct qt as [|[|[|[|q]]]]; cbn; try reflexivity.
Qed.

(** C5.  On a file whose device carries out four more operations,
    [updateWavHeader] returns nil after exactly four operations, two
    seek-and-write pairs: seek to offset 4, write the 32-bit little-endian
    value of [36 + dataSize]; seek to offset 40, write that of [dataSize].
    The two fields then read back as those values (to 32 bits). *)
Theorem updateWavHeader_two_patches (dataSize : Z) (w : File) :
  (4 <= quota w)%nat ->
  exists w',
    updateWavHeader dataSize w = (w', Ok tt)
    /\ history w'
       = history w ++ [OpSeek 4; OpWrite (le32 (36 + dataSize));
                       OpSeek 40; OpWrite (le32 dataSize)]
    /\ contents w'
       = overwrite (overwrite (contents w) 4 (le32 (36 + dataSize)))
                   40 (le32 dataSize)
    /\ u32_at (contents w') 4 = (36 + dataSize) mod 2 ^ 32
    /\ u32_at (contents w') 40 = dataSize mod 2 ^ 32.
Proof.
  intros Hq. rewrite updateWavHeader_cases.
  destruct (quota w) as [|[|[|[|q]]]]; try lia.
  eexists. split; [reflexivity |]. cbn [history contents].
  repeat split.
  - now rewrite <- !app_assoc.
  - rewrite u32_at_overwrite_outside.
    + apply u32_at_overwrite.
    + rewrite length_overwrite, length_le32. lia.
    + left. lia.
  - apply u32_at_overwrite.
Qed.

Lemma updateWavHeader_two_patches_witness :
  exists w',
    updateWavHeader 3072 (fst (writeWavHeader 16000 1 16 0 (os_Create 17)))
    = (w', Ok tt)
    /\ u32_at (contents w') 4 = 3108
    /\ u32_at (contents w') 40 = 3072.
Proof.
  destruct (updateWavHeader_two_patches 3072
              (fst (writeWavHeader 16000 1 16 0 (os_Create 17))))
    as (w' & Hw & _ & _ & H4 & H40).
  - vm_compute. lia.
  - exists w'. split; [exact Hw |]. split; [exact H4 | exact H40].
Defined.

(** C9.  Whatever the file and however far the device gets,
    [updateWavHeader] leaves every byte outside offsets 4-7 and 40-43 as it
    was, and a file that already holds a header keeps its length. *)
Theorem updateWavHeader_frame (dataSize : Z) (w : File) (i : nat) :
  (i < length (contents w))%nat ->
  ~ (4 <= i < 8)%nat -> ~ (40 <= i < 44)%nat ->
  nth_error (contents (fst (updateWavHeader dataSize w))) i
  = nth_error (contents w) i
  /\ ((44 <= length (contents w))%nat ->
      length (contents (fst (updateWavHeader dataSize w)))
      = length (contents w)).
Proof.
  intros Hi H4 H40. rewrite updateWavHeader_cases.
  destruct (quota w) as [|[|[|[|q]]]]; cbn [fst contents];
    rewrite ?length_overwrite, ?length_le32;
    (split; [| lia]);
    rewrite ?nth_error_overwrite_outside;
    rewrite ?length_overwrite, ?length_le32; auto; lia.
Qed.

Lemma updateWavHeader_frame_witness :
  let w := fst (writeWavHeader 16000 1 16 0 (os_Create 17)) in
  nth_error (contents (fst (updateWavHeader 3072 w))) 22
  = nth_error (contents w) 22
  /\ length (contents (fst (updateWavHeader 3072 w))) = 44%nat.
Proof.
  intros w.
  destruct (updateWavHeader_frame 3072 w 22) as [Hb Hl].
  - vm_compute. lia.
  - lia.
  - lia.
  - split; [exact Hb |]. rewrite Hl; [reflexivity | vm_compute; lia].
Defined.

(** ** Sample-rate negotiation *)

Section NegotiationFacts.

Variable IsFormatSupported : portaudio.StreamParameters -> option error.
Variable framesPerBuf : nat.
Variable channels : nat.
Variable dev : portaudio.DeviceInfo.

Local Abbreviation supported :=
  (supports IsFormatSupported framesPerBuf channels dev).
Local Abbreviation try :=
  (tryRates IsFormatSupported framesPerBuf channels dev).

Lemma tryRates_cons (rate : float) (rest : list float) :
  try (rate :: rest) = if supported rate then (rate, None) else try rest.
Proof.
  unfold supports. cbn [tryRates].
  destruct (IsFormatSupported _); reflexivity.
Qed.

(** The loop ends in one of two ways: with the first supported rate and
    no error, or with rate 0 and [os.ErrInvalid] after the whole list. *)
Lemma tryRates_outcome (rates : list float) :
  (exists before rate after,
      rates = before ++ rate :: after
      /\ forallb (fun r => negb (supported r)) before = true
      /\ supported rate = true
      /\ try rates = (rate, None))
  \/ (forallb (fun r => negb (supported r)) rates = true
      /\ try rates = (0%float, Some ErrInvalid)).
Proof.
  induction rates as [|r rest IH].
  - right. split; reflexivity.
  - rewrite tryRates_cons. destruct (supported r) eqn:Hr.
    + left. exists [], r, rest. repeat split; auto.
    + destruct IH as [(before & rate & after & -> & Hb & Hs & Ht) | [Hn Ht]].
      * left. exists (r :: before), rate, after.
        repeat split; auto. cbn [forallb]. now rewrite Hr, Hb.
      * right. split; auto. cbn [forallb]. now rewrite Hr, Hn.
Qed.

Lemma tryRates_first (before after : list float) (rate : float) :
  forallb (fun r => negb (supported r)) before = true ->
  supported rate = true ->
  try (before ++ rate :: after) = (rate, None).
Proof.
  induction before as [|r before IH]; intros Hb Hs; cbn [app].
  - rewrite tryRates_cons, Hs. reflexivity.
  - cbn [forallb] in Hb. apply andb_prop in Hb as [Hr Hb].
    rewrite tryRates_cons. apply negb_true_iff in Hr. rewrite Hr. auto.
Qed.

End NegotiationFacts.

(** C3.  Whatever the probe, the device and the candidate list,
    [findWorkingSampleRate] returns a rate with a nil error exactly when
    that rate is the earliest candidate the device supports (every
    candidate before it is refused); for the candidates 44100, 48000, 16000
    and a device that takes only 48000 and 16000 it returns 48000. *)
Theorem findWorkingSampleRate_first_supported :
  (forall (IsFormatSupported : portaudio.StreamParameters -> option error)
          (framesPerBuf channels : nat) (possibleSampleRates : list float)
          (dev : portaudio.DeviceInfo) (rate : float),
      findWorkingSampleRate IsFormatSupported framesPerBuf channels
                            possibleSampleRates dev = (rate, None)
      <-> exists before after,
          possibleSampleRates = before ++ rate :: after
          /\ forallb (fun r => negb (supports IsFormatSupported framesPerBuf
                                              channels dev r)) before = true
          /\ supports IsFormatSupported framesPerBuf channels dev rate = true)
  /\ findWorkingSampleRate (supportsOnly [48000; 16000]%float) 512 1
                           [44100; 48000; 16000]%float someDevice
     = (48000%float, None).
Proof.
  split; [| reflexivity].
  intros probe fpb ch rates dev rate. unfold findWorkingSampleRate. split.
  - intros H.
    destruct (tryRates_outcome probe fpb ch dev rates)
      as [(before & r & after & Hsplit & Hb & Hs & Ht) | [_ Ht]];
      rewrite Ht in H.
    + injection H as <-. exists before, after. auto.
    + discriminate.
  - intros (before & after & -> & Hb & Hs).
    now apply tryRates_first.
Qed.

(** C8.  [findWorkingSampleRate] returns rate 0 with [os.ErrInvalid]
    exactly when the device supports none of the candidates; it returns no
    other error, and with an error never a candidate's rate. *)
Theorem findWorkingSampleRate_error_iff :
  forall (IsFormatSupported : portaudio.StreamParameters -> option error)
         (framesPerBuf channels : nat) (possibleSampleRates : list float)
         (dev : portaudio.DeviceInfo),
    let result := findWorkingSampleRate IsFormatSupported framesPerBuf
                                        channels possibleSampleRates dev in
    let none_supported :=
      forallb (fun r => negb (supports IsFormatSupported framesPerBuf
                                       channels dev r))
              possibleSampleRates in
    (result = (0%float, Some ErrInvalid) <-> none_supported = true)
    /\ (snd result <> None <-> none_supported = true)
    /\ (snd result = None <-> none_supported = false).
Proof.
  intros probe fpb ch rates dev result none_supported.
  subst result none_supported. unfold findWorkingSampleRate.
  destruct (tryRates_outcome probe fpb ch dev rates)
    as [(before & r & after & -> & Hb & Hs & Ht) | [Hn Ht]];
    rewrite Ht; cbn [snd].
  - assert (Hf : forallb (fun r0 => negb (supports probe fpb ch dev r0))
                         (before ++ r :: after) = false).
    { rewrite forallb_app. cbn [forallb]. rewrite Hs, Hb. reflexivity. }
    rewrite Hf. repeat split; try discriminate; try congruence.
  - rewrite Hn. repeat split; try discriminate; try congruence.
Qed.

(** ** The streaming recorder *)

Lemma index_in_range {A} (s : list A) (i : nat) :
  (i < length s)%nat -> exists x, index s i = Ok x /\ nth_error s i = Some x.
Proof.
  intros Hi. unfold index. destruct (nth_error s i) as [x|] eqn:E.
  - exists x. auto.
  - apply nth_error_None in E. lia.
Qed.

(** With the whole frame inside the buffer the inner loop adds up its
    [n] samples and does not panic. *)
Lemma sumChannels_complete (buffer : list Z) (i : nat) :
  forall n ch sum,
    (i + ch + n <= length buffer)%nat ->
    Streaming.sumChannels buffer i n ch sum
    = Ok (fold_left Z.add (firstn n (skipn (i + ch) buffer)) sum).
Proof.
  induction n as [|n IH]; intros ch sum Hlen; cbn [Streaming.sumChannels].
  - reflexivity.
  - destruct (Nat.ltb_spec (i + ch) (length buffer)) as [Hlt | Hge]; [| lia].
    destruct (index_in_range buffer (i + ch) Hlt) as (x & Hx & Hn).
    rewrite Hx. cbn [res_bind]. rewrite IH by lia.
    replace (i + S ch)%nat with (S (i + ch)) by lia.
    assert (Hs : skipn (i + ch) buffer = x :: skipn (S (i + ch)) buffer).
    { rewrite <- (firstn_skipn_middle (i + ch) buffer Hn) at 1.
      rewrite skipn_app, skipn_all2 by (rewrite length_firstn; lia).
      rewrite length_firstn, Nat.min_l by lia.
      now rewrite Nat.sub_diag. }
    rewrite Hs. reflexivity.
Qed.

Lemma writeSample_at_end (volume : float) (s : Z) (c : list byte) (q : nat)
      (h : list FileOp) :
  Streaming.writeSample volume s (mkFile c (length c) (S q) h)
  = (mkFile (c ++ le16 (Streaming.gained volume s))
            (length (c ++ le16 (Streaming.gained volume s))) q
            (h ++ [OpWrite (le16 (Streaming.gained volume s))]),
     Ok tt).
Proof.
  unfold Streaming.writeSample, binary_Write_int16, bind, ret.
  now rewrite Write_at_end.
Qed.

(** One pass of the loop body over a complete frame: the 16-bit samples it
    writes ([chunks], one [Write] each) and what it adds to the byte
    counter. *)
Lemma frameStep_complete (channels : nat) (volume : float) (buffer : list Z)
      (i : nat) (total : Z) (c : list byte) (q : nat) (h : list FileOp) :
  (1 <= channels)%nat -> (i + channels <= length buffer)%nat ->
  exists chunks,
    Streaming.frameStep channels volume buffer i total
      (mkFile c (length c) (samplesPerFrame channels + q) h)
    = (mkFile (c ++ concat chunks) (length (c ++ concat chunks)) q
              (h ++ List.map OpWrite chunks),
       Ok (total + countedPerFrame channels))
    /\ length chunks = samplesPerFrame channels
    /\ Forall (fun s => length s = 2%nat) chunks.
Proof.
  intros Hch Hlen. unfold Streaming.frameStep.
  destruct channels as [|[|[|n]]]; [lia | | |].
  - destruct (index_in_range buffer i ltac:(lia)) as (x & Hx & _).
    exists [le16 (Streaming.gained volume x)].
    unfold bind, lift, ret. rewrite Hx.
    cbn [samplesPerFrame countedPerFrame Nat.add].
    rewrite writeSample_at_end. cbn [concat List.map].
    rewrite app_nil_r, Z.add_0_r. repeat split; auto.
  - destruct (index_in_range buffer i ltac:(lia)) as (x & Hx & _).
    destruct (index_in_range buffer (i + 1) ltac:(lia)) as (y & Hy & _).
    exists [le16 (Streaming.gained volume x); le16 (Streaming.gained volume y)].
    unfold bind, lift, ret. rewrite Hx, Hy.
    cbn [samplesPerFrame countedPerFrame Nat.add].
    rewrite !writeSample_at_end. cbn [concat List.map].
    rewrite app_nil_r, <- !app_assoc. cbn [app]. repeat split; auto.
  - set (avg := int16 (Z.quot
       (fold_left Z.add (firstn (S (S (S n))) (skipn i buffer)) 0)
       (Z.of_nat (S (S (S n)))))).
    exists [le16 (Streaming.gained volume avg); le16 (Streaming.gained volume avg)].
    unfold bind, lift, ret.
    rewrite sumChannels_complete by lia. rewrite Nat.add_0_r. fold avg.
    cbn [samplesPerFrame countedPerFrame Nat.add].
    rewrite !writeSample_at_end. cbn [concat List.map].
    rewrite app_nil_r, <- !app_assoc. cbn [app]. repeat split; auto.
Qed.

(** The loop over a block whose remaining length is [k] whole frames:
    [k] passes of the body, and the fuel is not used up. *)
Lemma blockLoop_complete (channels : nat) (volume : float) (buffer : list Z) :
  (1 <= channels)%nat ->
  forall k fuel i total c q h,
    length buffer = (i + k * channels)%nat -> (k <= fuel)%nat ->
    exists chunks,
      Streaming.blockLoop channels volume buffer fuel i total
        (mkFile c (length c) (samplesPerFrame channels * k + q) h)
      = (mkFile (c ++ concat chunks) (length (c ++ concat chunks)) q
                (h ++ List.map OpWrite chunks),
         Ok (total + countedPerFrame channels * Z.of_nat k))
      /\ length chunks = (samplesPerFrame channels * k)%nat
      /\ Forall (fun s => length s = 2%nat) chunks.
Proof.
  intros Hch. induction k as [|k IH]; intros fuel i total c q h Hlen Hfuel.
  - exists []. destruct fuel; cbn [Streaming.blockLoop];
      (destruct (Nat.ltb_spec i (length buffer)); [lia |]);
      unfold ret; cbn [concat List.map];
      rewrite !app_nil_r, Nat.mul_0_r, Z.mul_0_r, Z.add_0_r; auto.
  - destruct fuel as [|fuel]; [lia |]. cbn [Streaming.blockLoop].
    destruct (Nat.ltb_spec i (length buffer)) as [_ | Hge];
      [| cbn in Hlen; lia].
    replace (samplesPerFrame channels * S k + q)%nat
      with (samplesPerFrame channels + (samplesPerFrame channels * k + q))%nat
      by lia.
    destruct (frameStep_complete channels volume buffer i total c
                (samplesPerFrame channels * k + q) h Hch)
      as (chunks1 & Hstep & Hn1 & Hall1); [cbn in Hlen; lia |].
    unfold bind. rewrite Hstep.
    destruct (IH fuel (i + channels)%nat (total + countedPerFrame channels)
                (c ++ concat chunks1) q (h ++ List.map OpWrite chunks1))
      as (chunks2 & Hloop & Hn2 & Hall2); [cbn in Hlen; lia | lia |].
    rewrite Hloop. exists (chunks1 ++ chunks2).
    rewrite concat_app, map_app, !app_assoc.
    repeat split.
    + f_equal. f_equal. lia.
    + rewrite length_app, Hn1, Hn2, Nat.mul_succ_r. lia.
    + apply Forall_app. auto.
Qed.

(** The recording loop over blocks of [frames] whole frames each, none of
    whose reads fails. *)
Lemma recordingLoop_complete (channels : nat) (volume : float) (frames : nat) :
  (1 <= channels)%nat ->
  forall blocks total c q h,
    Forall (fun b => length b = (frames * channels)%nat) blocks ->
    exists chunks,
      Streaming.recordingLoop channels volume
        (List.map Streaming.ReadOk blocks) total
        (mkFile c (length c)
                (samplesPerFrame channels * (frames * length blocks) + q) h)
      = (mkFile (c ++ concat chunks) (length (c ++ concat chunks)) q
                (h ++ List.map OpWrite chunks),
         Ok (total + countedPerFrame channels
                     * Z.of_nat (frames * length blocks)))
      /\ length chunks = (samplesPerFrame channels * (frames * length blocks))%nat
      /\ Forall (fun s => length s = 2%nat) chunks.
Proof.
  intros Hch. induction blocks as [|b blocks IH]; intros total c q h Hall.
  - exists []. cbn [List.map Streaming.recordingLoop length concat].
    unfold ret. rewrite !app_nil_r, !Nat.mul_0_r, Z.mul_0_r, Z.add_0_r. auto.
  - inversion Hall as [|? ? Hb Hrest]; subst.
    cbn [List.map Streaming.recordingLoop length].
    unfold Streaming.processBlock, bind.
    replace (samplesPerFrame channels * (frames * S (length blocks)) + q)%nat
      with (samplesPerFrame channels * frames
            + (samplesPerFrame channels * (frames * length blocks) + q))%nat
      by lia.
    destruct (blockLoop_complete channels volume b Hch frames (length b) 0
                total c
                (samplesPerFrame channels * (frames * length blocks) + q) h)
      as (chunks1 & Hblock & Hn1 & Hall1); [lia | nia |].
    rewrite Hblock.
    destruct (IH (total + countedPerFrame channels * Z.of_nat frames)
                (c ++ concat chunks1) q (h ++ List.map OpWrite chunks1) Hrest)
      as (chunks2 & Hloop & Hn2 & Hall2).
    rewrite Hloop. exists (chunks1 ++ chunks2).
    rewrite concat_app, map_app, !app_assoc.
    repeat split.
    + f_equal. f_equal. lia.
    + rewrite length_app, Hn1, Hn2, Nat.mul_succ_r, Nat.mul_add_distr_l. lia.
    + apply Forall_app. auto.
Qed.

Lemma length_concat_pairs (chunks : list (list byte)) :
  Forall (fun s => length s = 2%nat) chunks ->
  length (concat chunks) = (2 * length chunks)%nat.
Proof.
  induction 1 as [|s chunks Hs _ IH]; [reflexivity |].
  cbn [concat length]. rewrite length_app, Hs, IH. lia.
Qed.

Lemma u16_at_overwrite_outside (c bs : list byte) (pos off : nat) :
  (off + 2 <= length c)%nat -> (off + 2 <= pos \/ pos + length bs <= off)%nat ->
  u16_at (overwrite c pos bs) off = u16_at c off.
Proof.
  intros Hlen Hout. unfold u16_at, byte_at.
  rewrite !(nth_nth_error (overwrite c pos bs)), !(nth_nth_error c).
  rewrite !nth_error_overwrite_outside by lia. reflexivity.
Qed.

(** The header of a file after the two patches: the two size fields are
    the patched values, the other fields are as before. *)
Lemma decode_patched (c : list byte) (a b : Z) :
  (44 <= length c)%nat ->
  decodeWavHeader (overwrite (overwrite c 4 (le32 a)) 40 (le32 b))
  = let h := decodeWavHeader c in
    mkWavHeader (a mod 2 ^ 32) (Subchunk1Size h) (AudioFormat h)
                (NumChannels h) (SampleRate h) (ByteRate h) (BlockAlign h)
                (BitsPerSample h) (b mod 2 ^ 32).
Proof.
  intros Hlen. unfold decodeWavHeader.
  cbn [Subchunk1Size AudioFormat NumChannels SampleRate ByteRate BlockAlign
       BitsPerSample].
  assert (L : length (overwrite c 4 (le32 a)) = length c)
    by (rewrite length_overwrite, length_le32; lia).
  rewrite u32_at_overwrite.
  rewrite !(u32_at_overwrite_outside _ (le32 b) 40)
    by (rewrite ?L, ?length_le32; lia).
  rewrite !(u16_at_overwrite_outside _ (le32 b) 40)
    by (rewrite ?L, ?length_le32; lia).
  rewrite u32_at_overwrite.
  rewrite !(u32_at_overwrite_outside c (le32 a) 4)
    by (rewrite ?length_le32; lia).
  rewrite !(u16_at_overwrite_outside c (le32 a) 4)
    by (rewrite ?length_le32; lia).
  reflexivity.
Qed.

Lemma length_wavHeaderChunks (sampleRate numChannels bitsPerSample dataSize : Z) :
  length (concat (wavHeaderChunks sampleRate numChannels bitsPerSample dataSize))
  = 44%nat.
Proof. reflexivity. Qed.

(** A whole session on a healthy device: the placeholder header, two
    bytes per written sample, then the two patches with the counted
    total. *)
Lemma record_complete (channels : nat) (volume sampleRate : float)
      (frames : nat) (blocks : list (list Z)) (q : nat) :
  (1 <= channels)%nat ->
  Forall (fun b => length b = (frames * channels)%nat) blocks ->
  let written := (samplesPerFrame channels * (frames * length blocks))%nat in
  let total := countedPerFrame channels * Z.of_nat (frames * length blocks) in
  let header := wavHeaderChunks (uint32_of_float64 sampleRate)
                                (uint16 (Z.of_nat channels))
                                Streaming.bitsPerSample 0 in
  exists chunks w,
    Streaming.record channels volume sampleRate
                     (List.map Streaming.ReadOk blocks)
                     (os_Create (13 + (written + (4 + q))))
    = (w, Ok tt)
    /\ contents w
       = overwrite (overwrite (concat header ++ concat chunks) 4
                              (le32 (36 + total))) 40 (le32 total)
    /\ history w
       = List.map OpWrite header ++ List.map OpWrite chunks
         ++ [OpSeek 4; OpWrite (le32 (36 + total));
             OpSeek 40; OpWrite (le32 total)]
    /\ length chunks = written
    /\ Forall (fun s => length s = 2%nat) chunks.
Proof.
  intros Hch Hall written total header.
  unfold Streaming.record, bind.
  change (os_Create (13 + (written + (4 + q))))
    with (mkFile [] (length (@nil byte)) (13 + (written + (4 + q))) []).
  rewrite writeWavHeader_appends. fold header.
  cbn [app length]. change (0 + 44)%nat with 44%nat.
  destruct (recordingLoop_complete channels volume frames Hch blocks 0
              (concat header) (4 + q) (List.map OpWrite header) Hall)
    as (chunks & Hloop & Hn & Hpairs).
  assert (L44 : length (concat header) = 44%nat)
    by apply length_wavHeaderChunks.
  rewrite L44 in Hloop. fold written in Hloop. rewrite Hloop.
  rewrite Z.add_0_l. fold total.
  rewrite updateWavHeader_cases. cbn [quota contents history Nat.add].
  eexists chunks, _. split; [reflexivity |]. cbn [contents history].
  rewrite <- !app_assoc. auto.
Qed.

(** C10.  With more than one configured channel, a session over blocks of
    [framesPerBuf] frames writes, after the header, exactly two 16-bit
    samples per frame ([samples], one [Write] of two bytes each, four data
    bytes per frame), while the header's NumChannels field holds the
    configured channel count. *)
Theorem stereo_pairs_whatever_the_channel_count
        (channels : nat) (volume sampleRate : float) (blocks : list (list Z))
        (q : nat) :
  (1 < channels)%nat -> Z.of_nat channels < 65536 ->
  Forall (fun b => length b = (Streaming.framesPerBuf * channels)%nat) blocks ->
  let frames := (Streaming.framesPerBuf * length blocks)%nat in
  let header := wavHeaderChunks (uint32_of_float64 sampleRate)
                                (uint16 (Z.of_nat channels))
                                Streaming.bitsPerSample 0 in
  exists samples w,
    Streaming.record channels volume sampleRate
                     (List.map Streaming.ReadOk blocks)
                     (os_Create (13 + (2 * frames + (4 + q))))
    = (w, Ok tt)
    /\ history w
       = List.map OpWrite header ++ List.map OpWrite samples
         ++ [OpSeek 4; OpWrite (le32 (36 + 4 * Z.of_nat frames));
             OpSeek 40; OpWrite (le32 (4 * Z.of_nat frames))]
    /\ length samples = (2 * frames)%nat
    /\ Forall (fun s => length s = 2%nat) samples
    /\ length (contents w) = (44 + 4 * frames)%nat
    /\ NumChannels (decodeWavHeader (contents w)) = Z.of_nat channels.
Proof.
  intros Hch H16 Hall frames header.
  destruct (record_complete channels volume sampleRate Streaming.framesPerBuf
              blocks q ltac:(lia) Hall)
    as (samples & w & Hrun & Hc & Hh & Hn & Hpairs).
  fold frames in Hrun, Hc, Hh, Hn. fold header in Hc, Hh.
  assert (Hspf : samplesPerFrame channels = 2%nat)
    by (destruct channels as [|[|n]]; [lia | lia | reflexivity]).
  assert (Hcnt : countedPerFrame channels = 4)
    by (destruct channels as [|[|n]]; [lia | lia | reflexivity]).
  rewrite Hspf in Hrun, Hn. rewrite Hcnt in Hc, Hh.
  exists samples, w. repeat split; auto.
  - rewrite Hc, !length_overwrite, !length_le32, length_app.
    rewrite (length_concat_pairs samples Hpairs), Hn.
    unfold header. rewrite length_wavHeaderChunks. lia.
  - rewrite Hc, decode_patched.
    + cbn [NumChannels]. unfold header. rewrite decode_wavHeaderChunks.
      cbn [NumChannels]. rewrite !uint16_small; [reflexivity | |].
      * unfold is_uint16. change (2 ^ 16) with 65536. lia.
      * apply uint16_range.
    + rewrite length_app. unfold header. rewrite length_wavHeaderChunks. lia.
Qed.

Lemma stereo_pairs_whatever_the_channel_count_witness :
  exists (samples : list (list byte)) w,
    Streaming.record 4 1%float 16000%float
      [Streaming.ReadOk (repeat 7 (Streaming.framesPerBuf * 4))]
      (os_Create (13 + (2 * (Streaming.framesPerBuf * 1) + (4 + 0))))
    = (w, Ok tt)
    /\ length samples = (2 * (Streaming.framesPerBuf * 1))%nat
    /\ length (contents w) = (44 + 4 * (Streaming.framesPerBuf * 1))%nat
    /\ NumChannels (decodeWavHeader (contents w)) = 4.
Proof.
  destruct (stereo_pairs_whatever_the_channel_count 4 1%float 16000%float
              [repeat 7 (Streaming.framesPerBuf * 4)] 0)
    as (samples & w & Hrun & _ & Hn & _ & Hlen & Hnc).
  - lia.
  - reflexivity.
  - constructor; [| constructor]. apply repeat_length.
  - exists samples, w. repeat split; assumption.
Defined.

(** In a mono session nothing is added to the byte counter: the patched
    header declares no data, however many samples were written. *)
Lemma mono_session_declares_no_data
      (volume sampleRate : float) (blocks : list (list Z)) (q : nat) :
  Forall (fun b => length b = (Streaming.framesPerBuf * 1)%nat) blocks ->
  let frames := (Streaming.framesPerBuf * length blocks)%nat in
  exists w,
    Streaming.record 1 volume sampleRate (List.map Streaming.ReadOk blocks)
                     (os_Create (13 + (frames + (4 + q))))
    = (w, Ok tt)
    /\ length (contents w) = (44 + 2 * frames)%nat
    /\ Subchunk2Size (decodeWavHeader (contents w)) = 0
    /\ ChunkSize (decodeWavHeader (contents w)) = 36.
Proof.
  intros Hall frames.
  destruct (record_complete 1 volume sampleRate Streaming.framesPerBuf
              blocks q ltac:(lia) Hall)
    as (samples & w & Hrun & Hc & _ & Hn & Hpairs).
  fold frames in Hrun, Hc, Hn. cbn [samplesPerFrame countedPerFrame] in *.
  rewrite Nat.mul_1_l in Hrun, Hn. rewrite Z.mul_0_l, Z.add_0_r in Hc.
  exists w. split; [exact Hrun |]. rewrite Hc. split.
  - rewrite !length_overwrite, !length_le32, length_app.
    rewrite (length_concat_pairs samples Hpairs), Hn.
    rewrite length_wavHeaderChunks. lia.
  - rewrite decode_patched
      by (rewrite length_app, length_wavHeaderChunks; lia).
    split; reflexivity.
Qed.

(** C2: the scenario on the code.  Three blocks of 512 mono frames at
    16000 Hz with gain 1.0 leave 3072 bytes of samples after the 44-byte
    header, and a patched header whose data size is 0, not 3072. *)
Theorem mono_three_blocks_header_data_size :
  let reads :=
    repeat (Streaming.ReadOk (repeat 0 Streaming.framesPerBuf)) 3 in
  let run := Streaming.record Streaming.channels Streaming.volume
                              16000%float reads (os_Create 1553) in
  snd run = Ok tt
  /\ length (contents (fst run)) = (44 + 3072)%nat
  /\ Subchunk2Size (decodeWavHeader (contents (fst run))) = 0
  /\ ChunkSize (decodeWavHeader (contents (fst run))) = 36
  /\ SampleRate (decodeWavHeader (contents (fst run))) = 16000
  /\ NumChannels (decodeWavHeader (contents (fst run))) = 1.
Proof. vm_compute. repeat split. Qed.

(** C1: on the code.  [writeSample] multiplies and converts without a
    clamp: at gain 2.0 the largest sample 32767 is written as -2, the low
    16 bits of 65534, where the buffering variant gives the clamped 1.0. *)
Theorem writeSample_wraps_at_gain_2 :
  Streaming.gained 2%float MaxInt16 = -2
  /\ Streaming.writeSample 2%float MaxInt16 (os_Create 1)
     = (mkFile [xfe; xff] 2 0 [OpWrite [xfe; xff]], Ok tt)
  /\ Buffered.applyVolume 2%float MaxInt16 = 1%float.
Proof. vm_compute. repeat split. Qed.

Lemma In_countFrom (n : nat) :
  forall z s, z <= s < z + Z.of_nat n -> In s (countFrom n z).
Proof.
  induction n as [|n IH]; intros z s Hs; [lia |].
  cbn [countFrom]. destruct (Z.eq_dec z s) as [-> | Hne].
  - now left.
  - right. apply IH. lia.
Qed.

Lemma In_all_int16 (s : Z) : is_int16 s -> In s all_int16.
Proof.
  unfold all_int16, is_int16, MinInt16, MaxInt16. intros Hs.
  apply In_countFrom.
  replace (Z.of_nat (256 * 256)) with 65536; [lia |].
  rewrite Nat2Z.inj_mul. reflexivity.
Qed.

(** At the gain [main.go] is built with, 1.0, [writeSample] writes every
    sample as it is. *)
Lemma gained_at_unit_volume (s : Z) :
  is_int16 s -> Streaming.gained Streaming.volume s = s.
Proof.
  intros Hs.
  assert (H : forallb (fun x => Streaming.gained Streaming.volume x =? x)
                      all_int16 = true) by (vm_compute; reflexivity).
  rewrite forallb_forall in H. apply Z.eqb_eq, H, In_all_int16, Hs.
Qed.

(** At the gain the buffering variant is built with, 2.0, every sample
    comes out of the clamp within [-1, 1]. *)
Lemma applyVolume_clamped (s : Z) :
  is_int16 s ->
  (-1 <=? Buffered.applyVolume Buffered.volume s)%float = true
  /\ (Buffered.applyVolume Buffered.volume s <=? 1)%float = true.
Proof.
  intros Hs.
  assert (H : forallb (fun x =>
                (-1 <=? Buffered.applyVolume Buffered.volume x)%float
                && (Buffered.applyVolume Buffered.volume x <=? 1)%float)
                all_int16 = true) by (vm_compute; reflexivity).
  rewrite forallb_forall in H. apply andb_prop, H, In_all_int16, Hs.
Qed.

Lemma collect_app (volume : float) (buffer : list Z) :
  forall samples,
    Buffered.collect volume samples buffer
    = samples ++ List.map (Buffered.applyVolume volume) buffer.
Proof.
  unfold Buffered.collect.
  induction buffer as [|s buffer IH]; intros samples; cbn [fold_left List.map].
  - now rewrite app_nil_r.
  - rewrite IH, <- app_assoc. reflexivity.
Qed.

(** So every sample the buffering recorder collects from a block lies
    within [-1, 1]. *)
Lemma collect_clamped (buffer : list Z) :
  Forall is_int16 buffer ->
  Forall (fun x => (-1 <=? x)%float = true /\ (x <=? 1)%float = true)
         (Buffered.collect Buffered.volume [] buffer).
Proof.
  intros Hall. rewrite collect_app. cbn [app].
  induction Hall as [|s buffer Hs _ IH]; cbn [List.map]; constructor.
  - now apply applyVolume_clamped.
  - exact IH.
Qed.

(** ** The buffering recorder's streamer *)

Lemma skipn_cons_nth {A} (l : list A) (i : nat) (x : A) :
  nth_error l i = Some x -> skipn i l = x :: skipn (S i) l.
Proof.
  revert i. induction l as [|y l IH]; intros [|i] H; cbn in *;
    try discriminate.
  - now injection H as ->.
  - now apply IH.
Qed.

Lemma length_update {A} (l : list A) (j : nat) (x : A) :
  length (Buffered.update l j x) = length l.
Proof.
  revert j. induction l as [|y l IH]; intros [|j]; cbn; auto.
Qed.

Lemma firstn_update {A} (l : list A) (j : nat) (x : A) :
  (j < length l)%nat ->
  firstn (S j) (Buffered.update l j x) = firstn j l ++ [x].
Proof.
  revert j. induction l as [|y l IH]; intros [|j] H; cbn in *; try lia.
  - reflexivity.
  - f_equal. apply IH. lia.
Qed.

(** Frame [k] is whole exactly when [k] is below the quotient. *)
Lemma whole_frame_iff (len ch k : nat) :
  (1 <= ch)%nat -> (k * ch + ch <= len <-> k < len / ch)%nat.
Proof.
  intros Hch. split; intros H.
  - assert (S k <= len / ch)%nat; [| lia].
    apply Nat.div_le_lower_bound; lia.
  - pose proof (Nat.Div0.mul_div_le len ch) as Hd.
    assert (ch * S k <= ch * (len / ch))%nat
      by (apply Nat.mul_le_mono_l; lia).
    lia.
Qed.

Lemma length_frameAt (samples : list float) (ch k : nat) :
  (1 <= ch)%nat -> (k < length samples / ch)%nat ->
  length (Buffered.frameAt samples ch k) = ch.
Proof.
  intros Hch Hk. apply whole_frame_iff in Hk; [| exact Hch].
  unfold Buffered.frameAt. rewrite length_firstn, length_skipn. lia.
Qed.

Lemma sumLoop_complete (samples : list float) (i : nat) :
  forall n k sum,
    (i + k + n <= length samples)%nat ->
    Buffered.sumLoop samples i n k sum
    = Ok (fold_left PrimFloat.add (firstn n (skipn (i + k) samples)) sum).
Proof.
  induction n as [|n IH]; intros k sum Hlen; cbn [Buffered.sumLoop].
  - reflexivity.
  - destruct (Nat.ltb_spec (i + k) (length samples)) as [Hlt | Hge]; [| lia].
    destruct (index_in_range samples (i + k) Hlt) as (x & Hx & Hn).
    rewrite Hx. cbn [res_bind]. rewrite IH by lia.
    replace (i + S k)%nat with (S (i + k)) by lia.
    rewrite (skipn_cons_nth samples (i + k) x Hn). reflexivity.
Qed.

(** On a whole frame the [switch] of the streamer reads inside the slice
    and gives the pair of the frame. *)
Lemma mixFrame_complete (samples : list float) (ch i : nat) :
  (1 <= ch)%nat -> (i + ch <= length samples)%nat ->
  Buffered.mixFrame samples ch i
  = Ok (Buffered.pairOf ch (firstn ch (skipn i samples))).
Proof.
  intros Hch Hlen. unfold Buffered.mixFrame, Buffered.pairOf.
  destruct ch as [|[|[|n]]]; [lia | | |].
  - destruct (index_in_range samples i ltac:(lia)) as (x & Hx & Hn).
    rewrite Hx, (skipn_cons_nth samples i x Hn). reflexivity.
  - destruct (index_in_range samples i ltac:(lia)) as (x & Hx & Hn).
    destruct (index_in_range samples (i + 1) ltac:(lia)) as (y & Hy & Hm).
    rewrite Hx, Hy, (skipn_cons_nth samples i x Hn).
    replace (i + 1)%nat with (S i) in Hm by lia.
    rewrite (skipn_cons_nth samples (S i) y Hm). reflexivity.
  - rewrite sumLoop_complete by lia. cbn [res_bind]. rewrite Nat.add_0_r.
    unfold Buffered.mean.
    rewrite length_firstn, length_skipn, Nat.min_l by lia. reflexivity.
Qed.

Lemma pairsOf_succ (samples : list float) (ch k0 m : nat) :
  Buffered.pairsOf samples ch k0 (S m)
  = Buffered.pairOf ch (Buffered.frameAt samples ch k0)
    :: Buffered.pairsOf samples ch (S k0) m.
Proof. reflexivity. Qed.

Lemma pairsOf_app (samples : list float) (ch k0 m1 m2 : nat) :
  Buffered.pairsOf samples ch k0 (m1 + m2)
  = Buffered.pairsOf samples ch k0 m1
    ++ Buffered.pairsOf samples ch (k0 + m1) m2.
Proof. unfold Buffered.pairsOf. now rewrite seq_app, map_app. Qed.

Lemma length_pairsOf (samples : list float) (ch k0 m : nat) :
  length (Buffered.pairsOf samples ch k0 m) = m.
Proof. unfold Buffered.pairsOf. now rewrite length_map, length_seq. Qed.

Lemma nth_error_pairsOf (samples : list float) (ch m k : nat) :
  (k < m)%nat ->
  nth_error (Buffered.pairsOf samples ch 0 m) k
  = Some (Buffered.pairOf ch (Buffered.frameAt samples ch k)).
Proof.
  intros Hk. unfold Buffered.pairsOf.
  rewrite nth_error_map.
  rewrite (nth_error_nth' (seq 0 m) 0%nat) by (rewrite length_seq; lia).
  rewrite seq_nth by lia. reflexivity.
Qed.

(** One run of the [for j] loop, entered at slot [j] with [slots] left and
    the closure at frame [k0]: it fills [m] slots with the pairs of the
    next [m] whole frames, where [m] is what fits and what is left. *)
Lemma streamLoop_spec (samples : list float) (ch : nat) :
  (1 <= ch)%nat ->
  forall slots j k0 b,
    (j + slots = length b)%nat -> (k0 <= length samples / ch)%nat ->
    exists out,
      Buffered.streamLoop samples ch slots j (k0 * ch) b
      = Ok (Buffered.mkStreamed
              out (j + Nat.min slots (length samples / ch - k0))
              (slots <=? length samples / ch - k0)%nat
              ((k0 + Nat.min slots (length samples / ch - k0)) * ch))
      /\ length out = length b
      /\ firstn (j + Nat.min slots (length samples / ch - k0)) out
         = firstn j b
           ++ Buffered.pairsOf samples ch k0
                (Nat.min slots (length samples / ch - k0)).
Proof.
  intros Hch. remember (length samples / ch)%nat as D eqn:HD.
  induction slots as [|slots IH]; intros j k0 b Hj Hk0.
  - exists b. cbn [Buffered.streamLoop Nat.min Nat.leb].
    rewrite !Nat.add_0_r. replace (length b) with j by lia.
    cbn [Buffered.pairsOf seq List.map]. rewrite app_nil_r. auto.
  - cbn [Buffered.streamLoop].
    pose proof (whole_frame_iff (length samples) ch k0 Hch) as Hwf.
    rewrite <- HD in Hwf.
    destruct (Nat.ltb_spec (length samples) (k0 * ch + ch)) as [Hout | Hin].
    + assert (E : (D - k0 = 0)%nat) by lia. rewrite E.
      exists b. rewrite Nat.min_0_r, !Nat.add_0_r.
      cbn [Nat.leb Buffered.pairsOf seq List.map]. rewrite app_nil_r. auto.
    + assert (Hlt : (k0 < D)%nat) by (apply Hwf; lia).
      rewrite mixFrame_complete by lia. cbn [res_bind].
      fold (Buffered.frameAt samples ch k0).
      set (x := Buffered.pairOf ch (Buffered.frameAt samples ch k0)).
      replace (k0 * ch + ch)%nat with (S k0 * ch)%nat by lia.
      destruct (IH (S j) (S k0) (Buffered.update b j x))
        as (out & Hrun & Hlen & Hfirst);
        [rewrite length_update; lia | lia |].
      assert (Em : Nat.min (S slots) (D - k0)
                   = S (Nat.min slots (D - S k0))) by lia.
      assert (Eok : (S slots <=? D - k0)%nat = (slots <=? D - S k0)%nat).
      { destruct (Nat.leb_spec (S slots) (D - k0)),
          (Nat.leb_spec slots (D - S k0)); auto; lia. }
      exists out. rewrite Hrun, Em, Eok, pairsOf_succ. fold x.
      rewrite length_update in Hlen. repeat split.
      * f_equal. f_equal; lia.
      * exact Hlen.
      * replace (j + S (Nat.min slots (D - S k0)))%nat
          with (S j + Nat.min slots (D - S k0))%nat by lia.
        rewrite Hfirst, firstn_update by lia.
        now rewrite <- app_assoc.
Qed.

(** What a consumer is handed over successive calls, starting with the
    closure at frame [k0]: the pairs of the next whole frames, as many as
    the buffers take and the samples give. *)
Lemma drain_spec (samples : list float) (ch : nat) :
  (1 <= ch)%nat ->
  forall sizes k0,
    (k0 <= length samples / ch)%nat ->
    Buffered.drain samples ch sizes (k0 * ch)
    = Ok (Buffered.pairsOf samples ch k0
            (Nat.min (list_sum sizes) (length samples / ch - k0)),
          ((k0 + Nat.min (list_sum sizes) (length samples / ch - k0)) * ch)%nat).
Proof.
  intros Hch. remember (length samples / ch)%nat as D eqn:HD.
  induction sizes as [|len sizes IH]; intros k0 Hk0.
  - change (list_sum []) with 0%nat.
    cbn [Buffered.drain Nat.min]. now rewrite Nat.add_0_r.
  - change (list_sum (len :: sizes)) with (len + list_sum sizes)%nat.
    cbn [Buffered.drain]. unfold Buffered.multiChannelStreamer.
    destruct (streamLoop_spec samples ch Hch (length (Buffered.silence len))
                0 k0 (Buffered.silence len))
      as (out & Hrun & Hlen & Hfirst); [lia | lia |].
    rewrite <- HD in Hrun, Hfirst. rewrite Hrun. cbn [res_bind
      Buffered.ok Buffered.n Buffered.buf Buffered.next].
    cbn [Nat.add firstn app] in Hfirst |- *. rewrite Hfirst.
    unfold Buffered.silence in *. rewrite repeat_length.
    destruct (Nat.leb_spec len (D - k0)) as [Hfit | Hshort].
    + rewrite Nat.min_l by lia. rewrite IH by lia. cbn [res_bind fst snd].
      replace (Nat.min (len + list_sum sizes) (D - k0))
        with (len + Nat.min (list_sum sizes) (D - (k0 + len)))%nat by lia.
      rewrite pairsOf_app. f_equal. f_equal. lia.
    + rewrite Nat.min_r by lia.
      replace (Nat.min (len + list_sum sizes) (D - k0))
        with (D - k0)%nat by lia.
      reflexivity.
Qed.

(** C7.  Whatever the length of the sample sequence, a consumer calling
    the streamer with buffers of the given sizes is handed whole frames
    only: the pairs of the first [emitted] frames, [emitted] being the
    smaller of the room offered and [length samples / ch]; so exactly the
    quotient once the room exceeds it.  No call reads outside the slice
    (none panics), the closure stops at [emitted * ch], within the
    sequence, and every frame handed out has all its [ch] samples. *)
Theorem streamer_emits_whole_frames
        (samples : list float) (ch : nat) (sizes : list nat) :
  (1 <= ch)%nat ->
  let whole := (length samples / ch)%nat in
  let emitted := Nat.min (list_sum sizes) whole in
  Buffered.drain samples ch sizes 0
  = Ok (Buffered.pairsOf samples ch 0 emitted, (emitted * ch)%nat)
  /\ length (Buffered.pairsOf samples ch 0 emitted) = emitted
  /\ (emitted * ch <= length samples)%nat
  /\ (forall k, (k < emitted)%nat ->
                length (Buffered.frameAt samples ch k) = ch)
  /\ ((whole < list_sum sizes)%nat -> emitted = whole).
Proof.
  intros Hch whole emitted.
  pose proof (drain_spec samples ch Hch sizes 0 ltac:(lia)) as Hd.
  rewrite Nat.sub_0_r in Hd. cbn [Nat.mul Nat.add] in Hd.
  fold whole in Hd. fold emitted in Hd.
  repeat split.
  - exact Hd.
  - apply length_pairsOf.
  - pose proof (Nat.Div0.mul_div_le (length samples) ch) as Hq.
    fold whole in Hq.
    assert (emitted * ch <= whole * ch)%nat
      by (apply Nat.mul_le_mono_r; subst emitted; lia).
    lia.
  - intros k Hk. apply length_frameAt; [exact Hch |].
    fold whole. subst emitted. lia.
  - intros Hroom. subst emitted. lia.
Qed.

Lemma streamer_emits_whole_frames_witness :
  Buffered.drain [0.25; 0.5; 0.75; 1; 0.125]%float 2 [1; 5]%nat 0
  = Ok ([(0.25, 0.5); (0.75, 1)]%float, 4%nat).
Proof.
  destruct (streamer_emits_whole_frames
              [0.25; 0.5; 0.75; 1; 0.125]%float 2 [1; 5]%nat)
    as (Hrun & _); [lia |].
  exact Hrun.
Defined.

Lemma int16_small (z : Z) : is_int16 z -> int16 z = z.
Proof.
  unfold is_int16, MinInt16, MaxInt16, int16. intros Hz.
  change (2 ^ 15) with 32768. change (2 ^ 16) with 65536.
  rewrite Z.mod_small by lia. lia.
Qed.

Lemma fold_left_add_bounds (l : list Z) :
  Forall is_int16 l ->
  forall acc,
    acc + MinInt16 * Z.of_nat (length l) <= fold_left Z.add l acc
    <= acc + MaxInt16 * Z.of_nat (length l).
Proof.
  unfold is_int16, MinInt16, MaxInt16.
  induction 1 as [|x l Hx _ IH]; intros acc; cbn [fold_left length].
  - lia.
  - specialize (IH (acc + x)). lia.
Qed.

(** The quotient of a sum of [n] 16-bit samples by [n] is a 16-bit
    sample. *)
Lemma quot_mean_in_range (sum n : Z) :
  0 < n -> MinInt16 * n <= sum <= MaxInt16 * n -> is_int16 (Z.quot sum n).
Proof.
  unfold is_int16, MinInt16, MaxInt16. intros Hn Hs.
  destruct (Z.le_gt_cases 0 sum) as [Hpos | Hneg].
  - rewrite Z.quot_div_nonneg by lia. split.
    + pose proof (Z.div_pos sum n Hpos Hn). lia.
    + apply Z.lt_succ_r, Z.div_lt_upper_bound; lia.
  - replace sum with (- (- sum)) by lia.
    rewrite Z.quot_opp_l by lia. rewrite Z.quot_div_nonneg by lia. split.
    + assert (- sum / n < 32769) by (apply Z.div_lt_upper_bound; lia). lia.
    + pose proof (Z.div_pos (- sum) n ltac:(lia) Hn). lia.
Qed.

(** C6, as amended.  For a frame of more than two channels: the streamer
    of the buffering recorder puts on both sides of the pair the mean of
    the frame, its [ch] samples summed in channel order and divided by
    [ch] in [float64] (0.2, 0.4, 0.6, 0.8 gives exactly 0.5); the loop
    body of the streaming recorder writes twice the gained value of the
    sum of the frame's samples divided by the channel count in integers,
    truncated toward zero: for 16-bit samples at the built-in gain that
    is the quotient itself, less than one away from the mean and never
    further from zero (1, 1, 0 gives 0). *)
Theorem downmix_is_the_mean_of_the_frame :
  (forall (samples : list float) (ch : nat) (sizes : list nat) (k : nat),
      (2 < ch)%nat ->
      (k < Nat.min (list_sum sizes) (length samples / ch))%nat ->
      exists frames pos,
        Buffered.drain samples ch sizes 0 = Ok (frames, pos)
        /\ nth_error frames k
           = Some (Buffered.mean (Buffered.frameAt samples ch k),
                   Buffered.mean (Buffered.frameAt samples ch k))
        /\ length (Buffered.frameAt samples ch k) = ch)
  /\ Buffered.multiChannelStreamer [0.2; 0.4; 0.6; 0.8]%float 4 0
                                   (Buffered.silence 1)
     = Ok (Buffered.mkStreamed [(0.5, 0.5)]%float 1 true 4)
  /\ (forall (channels : nat) (volume : float) (buffer : list Z) (i : nat)
             (total : Z) (c : list byte) (q : nat) (h : list FileOp),
         (2 < channels)%nat -> (i + channels <= length buffer)%nat ->
         let frame := firstn channels (skipn i buffer) in
         let sum := fold_left Z.add frame 0 in
         let avg := int16 (Z.quot sum (Z.of_nat channels)) in
         let out := le16 (Streaming.gained volume avg) in
         Streaming.frameStep channels volume buffer i total
                             (mkFile c (length c) (2 + q) h)
         = (mkFile (c ++ out ++ out) (length (c ++ out ++ out)) q
                   (h ++ [OpWrite out; OpWrite out]),
            Ok (total + 4))
         /\ length frame = channels
         /\ (Forall is_int16 frame ->
             avg = Z.quot sum (Z.of_nat channels)
             /\ Streaming.gained Streaming.volume avg = avg
             /\ Z.abs (sum - Z.of_nat channels * avg) < Z.of_nat channels
             /\ Z.abs (Z.of_nat channels * avg) <= Z.abs sum))
  /\ Streaming.frameStep 3 Streaming.volume [1; 1; 0] 0 0 (mkFile [] 0 2 [])
     = (mkFile [x00; x00; x00; x00] 4 0
               [OpWrite [x00; x00]; OpWrite [x00; x00]], Ok 4).
Proof.
  split; [| split; [vm_compute; reflexivity | split; [| vm_compute; reflexivity]]].
  - intros samples ch sizes k Hch Hk.
    pose proof (drain_spec samples ch ltac:(lia) sizes 0 ltac:(lia)) as Hd.
    rewrite Nat.sub_0_r in Hd. cbn [Nat.mul Nat.add] in Hd.
    eexists _, _. split; [exact Hd |]. split.
    + rewrite nth_error_pairsOf by exact Hk.
      destruct ch as [|[|[|n]]]; try lia. reflexivity.
    + apply length_frameAt; lia.
  - intros channels volume buffer i total c q h Hch Hlen frame sum avg out.
    assert (Hframe : length frame = channels)
      by (subst frame; rewrite length_firstn, length_skipn; lia).
    split; [| split; [exact Hframe |]].
    + unfold Streaming.frameStep.
      destruct channels as [|[|[|n]]]; try lia.
      unfold bind, lift, ret.
      rewrite sumChannels_complete by lia. rewrite Nat.add_0_r.
      fold frame. fold sum. fold avg. cbn [Nat.add].
      rewrite !writeSample_at_end. fold out.
      now rewrite <- !app_assoc.
    + intros Hint.
      pose proof (fold_left_add_bounds frame Hint 0) as Hsum.
      rewrite Hframe in Hsum. fold sum in Hsum.
      assert (Hq : is_int16 (Z.quot sum (Z.of_nat channels)))
        by (apply quot_mean_in_range; lia).
      assert (Havg : avg = Z.quot sum (Z.of_nat channels))
        by (subst avg; now apply int16_small).
      split; [exact Havg |]. split.
      * rewrite Havg. now apply gained_at_unit_volume.
      * rewrite Havg.
        pose proof (Z.quot_rem' sum (Z.of_nat channels)) as Hqr.
        pose proof (Z.rem_bound_abs sum (Z.of_nat channels) ltac:(lia)) as Hr.
        pose proof (Z.rem_sign_mul sum (Z.of_nat channels) ltac:(lia)) as Hsg.
        split.
        -- replace (sum - Z.of_nat channels * Z.quot sum (Z.of_nat channels))
             with (Z.rem sum (Z.of_nat channels)) by lia.
           lia.
        -- pose proof (Z.quot_rem' sum (Z.of_nat channels)).
           assert (Hsame : 0 <= Z.rem sum (Z.of_nat channels)
                                * (Z.of_nat channels
                                   * Z.quot sum (Z.of_nat channels))).
           { destruct (Z.le_gt_cases 0 sum) as [Hp | Hn].
             - pose proof (Z.rem_nonneg sum (Z.of_nat channels)
                             ltac:(lia) Hp).
               pose proof (Z.quot_pos sum (Z.of_nat channels) Hp ltac:(lia)).
               nia.
             - pose proof (Z.rem_nonpos sum (Z.of_nat channels)
                             ltac:(lia) ltac:(lia)).
               assert (Z.quot sum (Z.of_nat channels) <= 0).
               { replace sum with (- (- sum)) by lia.
                 rewrite Z.quot_opp_l by lia.
                 pose proof (Z.quot_pos (- sum) (Z.of_nat channels)
                               ltac:(lia) ltac:(lia)). lia. }
               nia. }
           nia.
Qed.

Lemma downmix_is_the_mean_of_the_frame_witness :
  exists frames pos,
    Buffered.drain [0.2; 0.4; 0.6; 0.8]%float 4 [1]%nat 0 = Ok (frames, pos)
    /\ nth_error frames 0 = Some (0.5, 0.5)%float.
Proof.
  destruct (proj1 downmix_is_the_mean_of_the_frame
                  [0.2; 0.4; 0.6; 0.8]%float 4%nat [1]%nat 0%nat)
    as (frames & pos & Hrun & Hk & _).
  - lia.
  - vm_compute. lia.
  - exists frames, pos. split; [exact Hrun |]. rewrite Hk.
    vm_compute. reflexivity.
Defined.

(** C6 as stated fails in the streaming recorder, which averages in
    integers: at the built-in gain the 3-channel frame 1, 1, 0 is written
    as the sample 0 on both sides, and three times 0 is not the sum 2 of
    the frame, so 0 is not its arithmetic mean. *)
Lemma downmix_is_the_mean_counterexample :
  Streaming.frameStep 3 Streaming.volume [1; 1; 0] 0 0 (mkFile [] 0 2 [])
  = (mkFile (le16 0 ++ le16 0) 4 0 [OpWrite (le16 0); OpWrite (le16 0)], Ok 4)
  /\ 3 * 0 <> 1 + 1 + 0.
Proof. split; [vm_compute; reflexivity | discriminate]. Qed.

(** The streaming recorder averages in integers: on a whole frame of more
    than two channels it writes twice the gained quotient of the frame's
    sum by the channel count, truncated toward zero. *)
Lemma frameStep_downmix (channels : nat) (volume : float) (buffer : list Z)
      (i : nat) (total : Z) (c : list byte) (q : nat) (h : list FileOp) :
  (2 < channels)%nat -> (i + channels <= length buffer)%nat ->
  let frame := firstn channels (skipn i buffer) in
  let avg := int16 (Z.quot (fold_left Z.add frame 0) (Z.of_nat channels)) in
  let out := le16 (Streaming.gained volume avg) in
  Streaming.frameStep channels volume buffer i total
                      (mkFile c (length c) (2 + q) h)
  = (mkFile (c ++ out ++ out) (length (c ++ out ++ out)) q
            (h ++ [OpWrite out; OpWrite out]),
     Ok (total + 4)).
Proof.
  intros Hch Hlen frame avg out. unfold Streaming.frameStep.
  destruct channels as [|[|[|n]]]; try lia.
  unfold bind, lift, ret.
  rewrite sumChannels_complete by lia. rewrite Nat.add_0_r.
  fold frame. fold avg. cbn [Nat.add].
  rewrite !writeSample_at_end. fold out.
  now rewrite <- !app_assoc.
Qed.

(** * Further properties of the code *)

(** ** File actions that only append *)

Lemma wrote_refl (w : File) :
  offset w = length (contents w) -> wrote w w [].
Proof.
  intros H. unfold wrote. cbn [concat List.map length].
  rewrite !app_nil_r, Nat.add_0_r. auto.
Qed.

Lemma wrote_trans (w w' w'' : File) (c1 c2 : list (list byte)) :
  wrote w w' c1 -> wrote w' w'' c2 -> wrote w w'' (c1 ++ c2).
Proof.
  intros (Hc1 & _ & Hh1 & Hq1) (Hc2 & Ho2 & Hh2 & Hq2). unfold wrote.
  repeat split.
  - now rewrite Hc2, Hc1, concat_app, <- app_assoc.
  - exact Ho2.
  - now rewrite Hh2, Hh1, map_app, <- app_assoc.
  - rewrite length_app. lia.
Qed.

Lemma appender_ret {A} (P : list byte -> Prop) (a : A) : appender P (ret a).
Proof. intros w Hw. exists []. split; [now apply wrote_refl | constructor]. Qed.

Lemma appender_lift {A} (P : list byte -> Prop) (r : res A) :
  appender P (lift r).
Proof. intros w Hw. exists []. split; [now apply wrote_refl | constructor]. Qed.

Lemma appender_Write (P : list byte -> Prop) (bs : list byte) :
  P bs -> appender P (Write bs).
Proof.
  intros HP [c o q h] Hw. cbn [offset contents] in Hw. subst o.
  destruct q as [|q].
  - exists []. split; [now apply wrote_refl | constructor].
  - rewrite Write_at_end. exists [bs]. split; [| now constructor].
    unfold wrote. cbn [fst contents offset history quota concat List.map length].
    rewrite app_nil_r. repeat split; auto. lia.
Qed.

Lemma appender_bind {A B} (P : list byte -> Prop) (m : io A) (k : A -> io B) :
  appender P m -> (forall a, appender P (k a)) -> appender P (bind m k).
Proof.
  intros Hm Hk w Hw. unfold bind.
  destruct (Hm w Hw) as (c1 & Hw1 & HP1).
  destruct (m w) as [w1 [a | e | |]] eqn:E; cbn [fst] in Hw1;
    try (exists c1; cbn [fst]; now split).
  destruct (Hk a w1 (proj1 (proj2 Hw1))) as (c2 & Hw2 & HP2).
  exists (c1 ++ c2). split.
  - eapply wrote_trans; eauto.
  - apply Forall_app. auto.
Qed.

Lemma appender_writeSample (volume : float) (s : Z) :
  appender (fun c => length c = 2%nat) (Streaming.writeSample volume s).
Proof.
  unfold Streaming.writeSample, binary_Write_int16.
  apply appender_bind; [now apply appender_Write | intros; apply appender_ret].
Qed.

Lemma appender_frameStep (channels : nat) (volume : float) (buffer : list Z)
      (i : nat) (total : Z) :
  appender (fun c => length c = 2%nat)
           (Streaming.frameStep channels volume buffer i total).
Proof.
  unfold Streaming.frameStep.
  destruct channels as [|[|[|n]]];
    repeat first
      [ apply appender_writeSample
      | apply appender_lift
      | apply appender_ret
      | apply appender_bind; [| intros ?]
      | progress cbv zeta ].
Qed.

Lemma appender_blockLoop (channels : nat) (volume : float) (buffer : list Z) :
  forall fuel i total,
    appender (fun c => length c = 2%nat)
             (Streaming.blockLoop channels volume buffer fuel i total).
Proof.
  induction fuel as [|fuel IH]; intros i total; cbn [Streaming.blockLoop];
    destruct (i <? length buffer)%nat;
    try apply appender_ret; try apply appender_lift.
  apply appender_bind; [apply appender_frameStep | intros a; apply IH].
Qed.

Lemma appender_recordingLoop (channels : nat) (volume : float) :
  forall reads total,
    appender (fun c => length c = 2%nat)
             (Streaming.recordingLoop channels volume reads total).
Proof.
  induction reads as [|[buffer|] reads IH]; intros total;
    cbn [Streaming.recordingLoop].
  - apply appender_ret.
  - apply appender_bind; [apply appender_blockLoop | intros a; apply IH].
  - apply appender_lift.
Qed.

(** The same actions on a device that carries out every write they
    attempt. *)
Lemma steady_mono {A} (n n' : nat) (m : io A) :
  steady n m -> (n <= n')%nat -> steady n' m.
Proof.
  intros Hm Hle w Hw Hq.
  destruct (Hm w Hw ltac:(lia)) as (chunks & H1 & H2 & H3 & H4).
  exists chunks. split; [exact H1 | split; [exact H2 | split; [lia | exact H4]]].
Qed.

Lemma steady_ret {A} (a : A) : steady 0 (ret a).
Proof.
  intros w Hw _. exists []. unfold ret. cbn [fst snd length].
  split; [now apply wrote_refl | split; [constructor | split; [lia | discriminate]]].
Qed.

Lemma steady_lift {A} (r : res A) : r <> Fail ErrIO -> steady 0 (lift r).
Proof.
  intros Hr w Hw _. exists []. unfold lift. cbn [fst snd length].
  split; [now apply wrote_refl | split; [constructor | split; [lia | exact Hr]]].
Qed.

Lemma steady_bind {A B} (n1 n2 : nat) (m : io A) (k : A -> io B) :
  steady n1 m -> (forall a, steady n2 (k a)) -> steady (n1 + n2) (bind m k).
Proof.
  intros Hm Hk w Hw Hq. unfold bind.
  destruct (Hm w Hw ltac:(lia)) as (c1 & Hw1 & HP1 & Hn1 & Hr1).
  destruct (m w) as [w1 [a | e | |]] eqn:E; cbn [fst snd] in *;
    try (exists c1; cbn [fst snd];
         split; [exact Hw1 | split; [exact HP1 | split; [lia | congruence]]]).
  assert (Hq1 : (n2 <= quota w1)%nat)
    by (destruct Hw1 as (_ & _ & _ & Hquota); lia).
  destruct (Hk a w1 (proj1 (proj2 Hw1)) Hq1) as (c2 & Hw2 & HP2 & Hn2 & Hr2).
  exists (c1 ++ c2). split; [| split; [| split]].
  - eapply wrote_trans; eauto.
  - apply Forall_app. auto.
  - rewrite length_app. lia.
  - exact Hr2.
Qed.

Lemma steady_writeSample (volume : float) (s : Z) :
  steady 1 (Streaming.writeSample volume s).
Proof.
  intros [c o q h] Hw Hq. cbn [offset contents quota] in *. subst o.
  destruct q as [|q]; [lia |]. rewrite writeSample_at_end.
  exists [le16 (Streaming.gained volume s)].
  cbn [fst snd length].
  split; [| split; [now constructor | split; [lia | discriminate]]].
  unfold wrote. cbn [contents offset history quota concat List.map length].
  rewrite app_nil_r. repeat split; auto. lia.
Qed.

Lemma index_not_io_error {A} (s : list A) (i : nat) : index s i <> Fail ErrIO.
Proof. unfold index. destruct (nth_error s i); discriminate. Qed.

Lemma sumChannels_not_io_error (buffer : list Z) (i : nat) :
  forall n ch sum, Streaming.sumChannels buffer i n ch sum <> Fail ErrIO.
Proof.
  induction n as [|n IH]; intros ch sum; cbn [Streaming.sumChannels];
    [discriminate |].
  destruct (i + ch <? length buffer)%nat; [| discriminate].
  unfold index. destruct (nth_error buffer (i + ch)); cbn [res_bind];
    [apply IH | discriminate].
Qed.

Lemma steady_frameStep (channels : nat) (volume : float) (buffer : list Z)
      (i : nat) (total : Z) :
  steady 2 (Streaming.frameStep channels volume buffer i total).
Proof.
  assert (Htwo : forall (v t : Z),
             steady 2 (Streaming.writeSample volume v ;;;
                       Streaming.writeSample volume v ;;; ret t)%io).
  { intros v t. apply (steady_bind 1 1); [apply steady_writeSample |].
    intros _. apply (steady_bind 1 0); [apply steady_writeSample |].
    intros _. apply steady_ret. }
  assert (Hdefault :
            steady 2 (sum <- lift (Streaming.sumChannels buffer i channels 0 0) ;;
                      let avg := int16 (Z.quot sum (Z.of_nat channels)) in
                      Streaming.writeSample volume avg ;;;
                      Streaming.writeSample volume avg ;;;
                      ret (total + 4))%io).
  { apply (steady_bind 0 2).
    - apply steady_lift, sumChannels_not_io_error.
    - intros sum. cbv zeta. apply Htwo. }
  unfold Streaming.frameStep.
  destruct channels as [|[|[|n]]]; try exact Hdefault.
  - apply (steady_bind 0 2); [apply steady_lift, index_not_io_error |].
    intros val. apply (steady_mono 1); [| lia].
    apply (steady_bind 1 0); [apply steady_writeSample |].
    intros _. apply steady_ret.
  - apply (steady_bind 0 2); [apply steady_lift, index_not_io_error |].
    intros l. apply (steady_bind 0 2); [apply steady_lift, index_not_io_error |].
    intros r. apply (steady_bind 1 1); [apply steady_writeSample |].
    intros _. apply (steady_bind 1 0); [apply steady_writeSample |].
    intros _. apply steady_ret.
Qed.

Lemma steady_blockLoop (channels : nat) (volume : float) (buffer : list Z) :
  forall fuel i total,
    steady (2 * fuel)
           (Streaming.blockLoop channels volume buffer fuel i total).
Proof.
  induction fuel as [|fuel IH]; intros i total; cbn [Streaming.blockLoop];
    destruct (i <? length buffer)%nat;
    try (apply (steady_mono 0); [apply steady_ret | lia]);
    try (apply steady_lift; discriminate).
  apply (steady_mono (2 + 2 * fuel)); [| lia].
  apply steady_bind; [apply steady_frameStep | intros a; apply IH].
Qed.

Lemma steady_recordingLoop (channels : nat) (volume : float) :
  forall reads total,
    steady (2 * samplesRead reads)
           (Streaming.recordingLoop channels volume reads total).
Proof.
  induction reads as [|[buffer|] reads IH]; intros total;
    cbn [Streaming.recordingLoop].
  - apply steady_ret.
  - apply (steady_mono (2 * length buffer + 2 * samplesRead reads)).
    + apply steady_bind; [apply steady_blockLoop | intros a; apply IH].
    + unfold samplesRead. cbn [List.map].
      change (list_sum (length buffer :: ?l)) with (length buffer + list_sum l)%nat.
      lia.
  - apply (steady_mono 0); [apply steady_lift; discriminate | lia].
Qed.

(** X1.  The recording loop only appends.  Whatever the channel count,
    the gain and the reads (blocks of any length, failed reads among
    them), the bytes the file held stay as they were and the loop leaves
    the file positioned at its end.  On a device that carries out two
    writes for every sample delivered, no write fails, and what was added
    is the samples written, two bytes for each [Write]. *)
Theorem recordingLoop_only_appends
        (channels : nat) (volume : float) (reads : list Streaming.capture)
        (total : Z) (w : File) :
  offset w = length (contents w) ->
  (exists data,
      contents (fst (Streaming.recordingLoop channels volume reads total w))
      = contents w ++ data)
  /\ offset (fst (Streaming.recordingLoop channels volume reads total w))
     = length (contents
                 (fst (Streaming.recordingLoop channels volume reads total w)))
  /\ ((2 * samplesRead reads <= quota w)%nat ->
      snd (Streaming.recordingLoop channels volume reads total w)
      <> Fail ErrIO
      /\ exists samples,
          wrote w (fst (Streaming.recordingLoop channels volume reads total w))
                samples
          /\ Forall (fun c => length c = 2%nat) samples).
Proof.
  intros Hw.
  destruct (appender_recordingLoop channels volume reads total w Hw)
    as (chunks & (Hc & Ho & _) & _).
  split; [eauto |]. split; [exact Ho |].
  intros Hq.
  destruct (steady_recordingLoop channels volume reads total w Hw Hq)
    as (samples & Hwrote & Hpairs & _ & Hr).
  split; [exact Hr | eauto].
Qed.

Lemma recordingLoop_only_appends_witness :
  (exists data,
      contents (fst (Streaming.recordingLoop 2 1%float
                       [Streaming.ReadOk [1; 2; 3]; Streaming.ReadFail] 0
                       (os_Create 6)))
      = [] ++ data)
  /\ snd (Streaming.recordingLoop 2 1%float
            [Streaming.ReadOk [1; 2; 3]; Streaming.ReadFail] 0
            (os_Create 6)) <> Fail ErrIO.
Proof.
  destruct (recordingLoop_only_appends 2 1%float
              [Streaming.ReadOk [1; 2; 3]; Streaming.ReadFail] 0
              (os_Create 6) eq_refl)
    as (Hdata & _ & Hsteady).
  split; [exact Hdata |]. apply Hsteady. cbn. lia.
Defined.

(** ** The header on a device that gives up *)

(** [writeWavHeader] on a fresh file whose device carries out [q]
    operations: the first [q] chunks get written, and the error is nil
    from thirteen on. *)
Lemma writeWavHeader_on_fresh
      (sampleRate numChannels bitsPerSample dataSize : Z) (q : nat) :
  writeWavHeader sampleRate numChannels bitsPerSample dataSize (os_Create q)
  = (let chunks :=
       firstn q (wavHeaderChunks sampleRate numChannels bitsPerSample dataSize)
     in
     mkFile (concat chunks) (length (concat chunks)) (q - 13)
            (List.map OpWrite chunks),
     if (13 <=? q)%nat then Ok tt else Fail ErrIO).
Proof.
  do 13 (destruct q as [|q]; [reflexivity |]).
  change (os_Create (S (S (S (S (S (S (S (S (S (S (S (S (S q))))))))))))))
    with (mkFile [] (length (@nil byte)) (13 + q) []).
  rewrite writeWavHeader_appends. cbv zeta.
  rewrite firstn_all2 by (cbn; lia).
  cbn [app length Nat.add Nat.sub Nat.leb].
  rewrite Nat.sub_0_r, length_wavHeaderChunks. reflexivity.
Qed.



(** ** Sessions that end in an error *)

(** X3.  A session ended by a failed read or by a panic keeps the
    placeholder header.  [updateWavHeader] is not reached, so whatever
    was recorded before, the first 44 bytes of the file are the header
    written at the start: its data size reads 0 and its chunk size 36. *)
Theorem aborted_session_keeps_the_placeholder
        (channels : nat) (volume sampleRate : float)
        (reads : list Streaming.capture) (q : nat) :
  snd (Streaming.record channels volume sampleRate reads (os_Create q))
  = Fail ErrRead
  \/ snd (Streaming.record channels volume sampleRate reads (os_Create q))
     = Panic ->
  firstn 44 (contents
               (fst (Streaming.record channels volume sampleRate reads
                                      (os_Create q))))
  = concat (wavHeaderChunks (uint32_of_float64 sampleRate)
                            (uint16 (Z.of_nat channels))
                            Streaming.bitsPerSample 0)
  /\ Subchunk2Size
       (decodeWavHeader
          (contents
             (fst (Streaming.record channels volume sampleRate reads
                                    (os_Create q))))) = 0
  /\ ChunkSize
       (decodeWavHeader
          (contents
             (fst (Streaming.record channels volume sampleRate reads
                                    (os_Create q))))) = 36.
Proof.
  unfold Streaming.record, bind. rewrite writeWavHeader_on_fresh. cbv zeta.
  set (hdr := wavHeaderChunks (uint32_of_float64 sampleRate)
                              (uint16 (Z.of_nat channels))
                              Streaming.bitsPerSample 0).
  destruct (Nat.leb_spec 13 q) as [Hge | Hlt];
    [| cbn [snd]; intros [H | H]; discriminate].
  rewrite (firstn_all2 hdr) by (subst hdr; cbn; lia).
  set (w1 := mkFile (concat hdr) (length (concat hdr)) (q - 13)
                    (List.map OpWrite hdr)).
  destruct (appender_recordingLoop channels volume reads 0 w1 eq_refl)
    as (samples & (Hc & _) & _).
  assert (Hkeeps : forall data,
             firstn 44 (concat hdr ++ data) = concat hdr
             /\ Subchunk2Size (decodeWavHeader (concat hdr ++ data)) = 0
             /\ ChunkSize (decodeWavHeader (concat hdr ++ data)) = 36).
  { intros data. subst hdr. split; [| split].
    - change 44%nat with (length (concat
        (wavHeaderChunks (uint32_of_float64 sampleRate)
           (uint16 (Z.of_nat channels)) Streaming.bitsPerSample 0)) + 0)%nat.
      rewrite firstn_app_2. cbn [firstn]. now rewrite app_nil_r.
    - rewrite decode_wavHeaderChunks. reflexivity.
    - rewrite decode_wavHeaderChunks. reflexivity. }
  destruct (Streaming.recordingLoop channels volume reads 0 w1)
    as [w2 [total | e | |]]; subst w1; cbn [fst snd contents] in *;
    try (intros _; rewrite Hc; apply Hkeeps).
  rewrite updateWavHeader_cases.
  destruct (quota w2) as [|[|[|[|q2]]]]; cbn [snd];
    intros [H | H]; discriminate.
Qed.

Lemma aborted_session_keeps_the_placeholder_witness :
  Subchunk2Size
    (decodeWavHeader
       (contents
          (fst (Streaming.record 2 1%float 16000%float
                  [Streaming.ReadOk [1; 2; 3; 4]; Streaming.ReadFail]
                  (os_Create 100))))) = 0.
Proof.
  apply (aborted_session_keeps_the_placeholder 2 1%float 16000%float
           [Streaming.ReadOk [1; 2; 3; 4]; Streaming.ReadFail] 100).
  left. vm_compute. reflexivity.
Defined.

(** ** Patching composed *)

(** Every position of a file after a write. *)
Lemma nth_error_overwrite (c bs : list byte) (pos i : nat) :
  nth_error (overwrite c pos bs) i
  = if (i <? pos)%nat then
      if (i <? length c)%nat then nth_error c i else Some x00
    else if (i <? pos + length bs)%nat then nth_error bs (i - pos)
    else nth_error c i.
Proof.
  unfold overwrite. rewrite app_assoc.
  assert (L : length (firstn pos c ++ repeat x00 (pos - length c)) = pos)
    by (rewrite length_app, length_firstn, repeat_length; lia).
  destruct (Nat.ltb_spec i pos) as [Hlt | Hge].
  - rewrite nth_error_app1 by lia.
    destruct (Nat.ltb_spec i (length c)) as [Hin | Hout].
    + rewrite nth_error_app1 by (rewrite length_firstn; lia).
      rewrite nth_error_firstn.
      destruct (Nat.ltb_spec i pos); [reflexivity | lia].
    + rewrite nth_error_app2 by (rewrite length_firstn; lia).
      apply nth_error_repeat. rewrite length_firstn. lia.
  - rewrite nth_error_app2 by lia. rewrite L.
    destruct (Nat.ltb_spec i (pos + length bs)) as [Hin | Hout].
    + now rewrite nth_error_app1 by lia.
    + rewrite nth_error_app2 by lia.
      rewrite nth_error_skipn. f_equal. lia.
Qed.

(** X4.  Finalising again overwrites the same two fields, so only the
    last size counts: on a file whose device carries out the eight
    operations, [updateWavHeader d1] followed by [updateWavHeader d2]
    leaves the bytes [updateWavHeader d2] alone would; with [d1 = d2],
    finalising twice is finalising once. *)
Theorem updateWavHeader_last_wins (d1 d2 : Z) (w : File) :
  (8 <= quota w)%nat ->
  contents (fst (updateWavHeader d2 (fst (updateWavHeader d1 w))))
  = contents (fst (updateWavHeader d2 w)).
Proof.
  intros Hq. rewrite !updateWavHeader_cases.
  destruct (quota w) as [|[|[|[|[|[|[|[|q]]]]]]]] eqn:E; try lia.
  cbn [fst quota contents].
  apply nth_error_ext. intros i.
  rewrite !nth_error_overwrite, !length_overwrite, !length_le32.
  repeat match goal with
         | |- context [Nat.ltb ?a ?b] => destruct (Nat.ltb_spec a b)
         end; try reflexivity; try lia.
Qed.

Lemma updateWavHeader_last_wins_witness :
  let w := fst (writeWavHeader 16000 1 16 0 (os_Create 21)) in
  contents (fst (updateWavHeader 3072 (fst (updateWavHeader 7 w))))
  = contents (fst (updateWavHeader 3072 w)).
Proof.
  intros w. apply updateWavHeader_last_wins. vm_compute. lia.
Defined.

(** X5.  Placeholder, data, patch is the header written with the final
    size: writing the header with data size 0, appending [data] and then
    [updateWavHeader d] leaves the same bytes as writing the header with
    data size [d] and appending [data]. *)
Theorem patched_placeholder_is_final_header
        (sampleRate numChannels bitsPerSample d : Z) (data : list byte)
        (q : nat) :
  contents
    (fst ((writeWavHeader sampleRate numChannels bitsPerSample 0 ;;;
           Write data ;;;
           updateWavHeader d)%io (os_Create (18 + q))))
  = contents
      (fst ((writeWavHeader sampleRate numChannels bitsPerSample d ;;;
             Write data)%io (os_Create (14 + q))))
  /\ snd ((writeWavHeader sampleRate numChannels bitsPerSample 0 ;;;
           Write data ;;;
           updateWavHeader d)%io (os_Create (18 + q))) = Ok tt.
Proof.
  unfold bind. rewrite !writeWavHeader_on_fresh. cbv zeta.
  rewrite !firstn_all2 by (cbn; lia).
  cbn [Nat.leb Nat.add Nat.sub]. rewrite !Write_at_end.
  rewrite updateWavHeader_cases. cbn [quota fst snd contents].
  split; [| reflexivity].
  rewrite <- (le32_uint32 (36 + d)).
  unfold wavHeaderChunks. cbn [concat app]. reflexivity.
Qed.

(** ** The loop body on any block *)

(** The inner loop of the [default] case stops at the end of the block:
    it adds up what is left of the frame and never indexes outside. *)
Lemma sumChannels_available (buffer : list Z) (i : nat) :
  forall n ch sum,
    Streaming.sumChannels buffer i n ch sum
    = Ok (fold_left Z.add (firstn n (skipn (i + ch) buffer)) sum).
Proof.
  induction n as [|n IH]; intros ch sum; cbn [Streaming.sumChannels].
  - reflexivity.
  - destruct (Nat.ltb_spec (i + ch) (length buffer)) as [Hlt | Hge].
    + destruct (index_in_range buffer (i + ch) Hlt) as (x & Hx & Hn).
      rewrite Hx. cbn [res_bind]. rewrite IH.
      replace (i + S ch)%nat with (S (i + ch)) by lia.
      rewrite (skipn_cons_nth buffer (i + ch) x Hn). reflexivity.
    + rewrite skipn_all2 by lia. now rewrite firstn_nil.
Qed.

(** X6.  With more than two channels the loop body takes whatever is left
    of the block as the frame, even fewer than [channels] samples: it adds
    them up, divides by the full channel count (truncating toward zero)
    and writes the gained quotient twice, counting four bytes.  It never
    indexes outside the block. *)
Theorem frameStep_averages_what_is_left
        (channels : nat) (volume : float) (buffer : list Z)
        (i : nat) (total : Z) (c : list byte) (q : nat) (h : list FileOp) :
  (2 < channels)%nat ->
  let frame := firstn channels (skipn i buffer) in
  let avg := int16 (Z.quot (fold_left Z.add frame 0) (Z.of_nat channels)) in
  let out := le16 (Streaming.gained volume avg) in
  Streaming.frameStep channels volume buffer i total
                      (mkFile c (length c) (2 + q) h)
  = (mkFile (c ++ out ++ out) (length (c ++ out ++ out)) q
            (h ++ [OpWrite out; OpWrite out]),
     Ok (total + 4)).
Proof.
  intros Hch frame avg out. unfold Streaming.frameStep.
  destruct channels as [|[|[|n]]]; try lia.
  unfold bind, lift, ret.
  rewrite sumChannels_available, Nat.add_0_r.
  fold frame. fold avg. cbn [Nat.add].
  rewrite !writeSample_at_end. fold out.
  now rewrite <- !app_assoc.
Qed.

Lemma frameStep_averages_what_is_left_witness :
  Streaming.frameStep 3 1%float [3; 6; 9; 30] 3 0 (mkFile [] 0 2 [])
  = (mkFile (le16 10 ++ le16 10) 4 0 [OpWrite (le16 10); OpWrite (le16 10)],
     Ok 4).
Proof.
  exact (frameStep_averages_what_is_left 3 1%float [3; 6; 9; 30] 3 0
           [] 0 [] ltac:(lia)).
Defined.

(** Actions that end by returning: with a value or an error, not with a
    panic and not cut off. *)
Lemma returns_bind {A B} (m : io A) (k : A -> io B) (w : File) :
  returns (snd (m w)) ->
  (forall a w', m w = (w', Ok a) -> returns (snd (k a w'))) ->
  returns (snd (bind m k w)).
Proof.
  unfold bind. intros Hm Hk.
  destruct (m w) as [w' [a | e | |]]; cbn [snd] in *; auto.
Qed.

Lemma returns_Write (bs : list byte) (w : File) : returns (snd (Write bs w)).
Proof. unfold Write. destruct (quota w); exact I. Qed.

Lemma returns_writeSample (volume : float) (s : Z) (w : File) :
  returns (snd (Streaming.writeSample volume s w)).
Proof.
  unfold Streaming.writeSample, binary_Write_int16.
  apply returns_bind; [apply returns_Write | intros; exact I].
Qed.

Lemma returns_frameStep (channels : nat) (volume : float) (buffer : list Z)
      (i : nat) (total : Z) (w : File) :
  channels <> 2%nat -> (i < length buffer)%nat ->
  returns (snd (Streaming.frameStep channels volume buffer i total w)).
Proof.
  intros Hch Hi. unfold Streaming.frameStep.
  destruct (index_in_range buffer i Hi) as (x & Hx & _).
  assert (Hdefault :
            returns (snd ((sum <- lift (Streaming.sumChannels buffer i
                                          channels 0 0) ;;
                           let avg := int16 (Z.quot sum (Z.of_nat channels)) in
                           Streaming.writeSample volume avg ;;;
                           Streaming.writeSample volume avg ;;;
                           ret (total + 4))%io w))).
  { apply returns_bind.
    - unfold lift. cbn [snd]. rewrite sumChannels_available. exact I.
    - intros sum w1 _. cbv zeta.
      apply returns_bind; [apply returns_writeSample |]. intros _ w2 _.
      apply returns_bind; [apply returns_writeSample |]. intros; exact I. }
  destruct channels as [|[|[|n]]]; try congruence; try exact Hdefault.
  apply returns_bind.
  - unfold lift. cbn [snd]. rewrite Hx. exact I.
  - intros val w1 _.
    apply returns_bind; [apply returns_writeSample | intros; exact I].
Qed.

Lemma returns_blockLoop (channels : nat) (volume : float) (buffer : list Z) :
  channels <> 2%nat -> (1 <= channels)%nat ->
  forall fuel i total w,
    (length buffer <= i + fuel)%nat ->
    returns (snd (Streaming.blockLoop channels volume buffer fuel i total w)).
Proof.
  intros Hch Hpos. induction fuel as [|fuel IH]; intros i total w Hfuel;
    cbn [Streaming.blockLoop];
    destruct (Nat.ltb_spec i (length buffer)) as [Hlt | Hge];
    try exact I; try lia.
  apply returns_bind; [now apply returns_frameStep |].
  intros a w' _. apply IH. lia.
Qed.

Lemma returns_writeWavHeader (sr nc bps ds : Z) (w : File) :
  returns (snd (writeWavHeader sr nc bps ds w)).
Proof.
  unfold writeWavHeader, binary_Write_uint32, binary_Write_uint16.
  repeat first
    [ apply returns_Write
    | exact I
    | apply returns_bind; [| intros ? ? _] ].
Qed.

Lemma returns_updateWavHeader (d : Z) (w : File) :
  returns (snd (updateWavHeader d w)).
Proof.
  rewrite updateWavHeader_cases.
  destruct (quota w) as [|[|[|[|q]]]]; exact I.
Qed.

(** X7.  With one channel or more than two, a session never panics and is
    never cut off, whatever the blocks (whole frames or not, empty, a
    failed read among them) and however soon the device fails: it returns
    nil or an error. *)
Theorem session_never_panics
        (channels : nat) (volume sampleRate : float)
        (reads : list Streaming.capture) (w : File) :
  (1 <= channels)%nat -> channels <> 2%nat ->
  returns (snd (Streaming.record channels volume sampleRate reads w)).
Proof.
  intros Hpos Hch. unfold Streaming.record.
  apply returns_bind; [apply returns_writeWavHeader |].
  intros _ w1 _. apply returns_bind; [| intros; apply returns_updateWavHeader].
  clear w. generalize 0 at 1. revert w1.
  induction reads as [|[buffer|] reads IH]; intros w total;
    cbn [Streaming.recordingLoop]; try exact I.
  apply returns_bind.
  - unfold Streaming.processBlock. apply returns_blockLoop; auto; lia.
  - intros a w' _. apply IH.
Qed.

Lemma session_never_panics_witness :
  returns (snd (Streaming.record 3 1%float 16000%float
                  [Streaming.ReadOk [1; 2; 3; 4; 5]; Streaming.ReadOk []]
                  (os_Create 15))).
Proof.
  apply session_never_panics; [lia | discriminate].
Defined.

(** ** Mono and stereo blocks *)

(** With one or two channels the loop over a block of whole frames writes
    the samples of the block one by one, in order. *)
Lemma blockLoop_in_order (channels : nat) (volume : float) (buffer : list Z) :
  channels = 1%nat \/ channels = 2%nat ->
  forall k fuel i total c q h,
    length buffer = (i + k * channels)%nat -> (k <= fuel)%nat ->
    Streaming.blockLoop channels volume buffer fuel i total
      (mkFile c (length c) (k * channels + q) h)
    = (mkFile (c ++ concat (encoded volume (skipn i buffer)))
              (length (c ++ concat (encoded volume (skipn i buffer)))) q
              (h ++ List.map OpWrite (encoded volume (skipn i buffer))),
       Ok (total + countedPerFrame channels * Z.of_nat k)).
Proof.
  intros Hch. induction k as [|k IH]; intros fuel i total c q h Hlen Hfuel.
  - rewrite skipn_all2 by lia. cbn [encoded List.map concat].
    rewrite !app_nil_r, Z.mul_0_r, Z.add_0_r. cbn [Nat.mul Nat.add].
    destruct fuel; cbn [Streaming.blockLoop];
      (destruct (Nat.ltb_spec i (length buffer)); [lia | reflexivity]).
  - destruct fuel as [|fuel]; [lia |]. cbn [Streaming.blockLoop].
    destruct (Nat.ltb_spec i (length buffer)) as [_ | Hge];
      [| cbn in Hlen; lia].
    destruct Hch as [-> | ->]; unfold Streaming.frameStep, bind, lift, ret.
    + destruct (index_in_range buffer i ltac:(lia)) as (x & Hx & Hn).
      rewrite Hx. replace (S k * 1 + q)%nat with (S (k * 1 + q)) by lia.
      rewrite writeSample_at_end.
      rewrite (IH fuel (i + 1)%nat) by lia.
      rewrite (skipn_cons_nth buffer i x Hn).
      replace (i + 1)%nat with (S i) by lia.
      cbn [encoded List.map concat countedPerFrame].
      rewrite <- !app_assoc. cbn [app]. f_equal.
    + destruct (index_in_range buffer i ltac:(lia)) as (x & Hx & Hn).
      destruct (index_in_range buffer (i + 1) ltac:(lia)) as (y & Hy & Hm).
      rewrite Hx, Hy.
      replace (S k * 2 + q)%nat with (S (S (k * 2 + q))) by lia.
      rewrite !writeSample_at_end.
      rewrite (IH fuel (i + 2)%nat) by lia.
      rewrite (skipn_cons_nth buffer i x Hn).
      replace (i + 1)%nat with (S i) in Hm by lia.
      rewrite (skipn_cons_nth buffer (S i) y Hm).
      replace (i + 2)%nat with (S (S i)) by lia.
      cbn [encoded List.map concat countedPerFrame].
      rewrite <- !app_assoc. cbn [app]. f_equal. f_equal. lia.
Qed.

Lemma recordingLoop_in_order (channels : nat) (volume : float) (frames : nat) :
  channels = 1%nat \/ channels = 2%nat ->
  forall blocks total c q h,
    Forall (fun b => length b = (frames * channels)%nat) blocks ->
    Streaming.recordingLoop channels volume
      (List.map Streaming.ReadOk blocks) total
      (mkFile c (length c) (length (concat blocks) + q) h)
    = (mkFile (c ++ concat (encoded volume (concat blocks)))
              (length (c ++ concat (encoded volume (concat blocks)))) q
              (h ++ List.map OpWrite (encoded volume (concat blocks))),
       Ok (total + countedPerFrame channels
                   * Z.of_nat (frames * length blocks))).
Proof.
  intros Hch. induction blocks as [|b blocks IH]; intros total c q h Hall.
  - cbn [List.map Streaming.recordingLoop concat encoded length Nat.add].
    unfold ret. now rewrite !app_nil_r, Nat.mul_0_r, Z.mul_0_r, Z.add_0_r.
  - inversion Hall as [|? ? Hb Hrest]; subst.
    cbn [List.map Streaming.recordingLoop concat length].
    unfold Streaming.processBlock, bind.
    rewrite length_app, Hb, <- Nat.add_assoc.
    rewrite (blockLoop_in_order channels volume b Hch frames
               (frames * channels) 0)
      by (destruct Hch; subst; lia).
    rewrite IH by exact Hrest.
    unfold encoded. rewrite map_app, concat_app, map_app, <- !app_assoc.
    cbn [skipn]. f_equal. f_equal. lia.
Qed.

Lemma skipn_44_patched (c : list byte) (a b : Z) :
  (44 <= length c)%nat ->
  skipn 44 (overwrite (overwrite c 4 (le32 a)) 40 (le32 b)) = skipn 44 c.
Proof.
  intros Hlen. apply nth_error_ext. intros i.
  rewrite !nth_error_skipn, !nth_error_overwrite, !length_le32.
  repeat match goal with
         | |- context [Nat.ltb ?x ?y] => destruct (Nat.ltb_spec x y)
         end; try reflexivity; lia.
Qed.

Lemma encoded_at_unit_volume (samples : list Z) :
  Forall is_int16 samples ->
  encoded Streaming.volume samples = List.map le16 samples.
Proof.
  induction 1 as [|s samples Hs _ IH]; [reflexivity |].
  cbn [encoded List.map]. rewrite (gained_at_unit_volume s Hs).
  f_equal. exact IH.
Qed.

(** X8.  With one or two channels, a session over whole blocks on a
    healthy device leaves after the 44-byte header exactly the samples it
    was given, in the order they were captured (left and right
    interleaved as they came), each as the two little-endian bytes of its
    gained value; at the built-in gain 1.0 that is the 16-bit sample
    itself. *)
Theorem samples_reach_the_file_in_order
        (channels : nat) (volume sampleRate : float) (blocks : list (list Z))
        (q : nat) :
  channels = 1%nat \/ channels = 2%nat ->
  Forall (fun b => length b = (Streaming.framesPerBuf * channels)%nat) blocks ->
  exists w,
    Streaming.record channels volume sampleRate
                     (List.map Streaming.ReadOk blocks)
                     (os_Create (13 + (length (concat blocks) + (4 + q))))
    = (w, Ok tt)
    /\ skipn 44 (contents w) = concat (encoded volume (concat blocks))
    /\ (volume = Streaming.volume -> Forall is_int16 (concat blocks) ->
        skipn 44 (contents w) = concat (List.map le16 (concat blocks))).
Proof.
  intros Hch Hall. unfold Streaming.record, bind.
  rewrite writeWavHeader_on_fresh. cbv zeta.
  rewrite firstn_all2 by (cbn; lia).
  cbn [Nat.leb Nat.add Nat.sub]. rewrite Nat.sub_0_r.
  rewrite (recordingLoop_in_order channels volume Streaming.framesPerBuf Hch
             blocks 0 _ (4 + q) _ Hall).
  rewrite updateWavHeader_cases. cbn [quota Nat.add contents history].
  eexists. split; [reflexivity |]. cbn [contents].
  assert (Hdata : skipn 44 (concat
            (wavHeaderChunks (uint32_of_float64 sampleRate)
               (uint16 (Z.of_nat channels)) Streaming.bitsPerSample 0)
            ++ concat (encoded volume (concat blocks)))
          = concat (encoded volume (concat blocks))) by reflexivity.
  rewrite skipn_44_patched
    by (rewrite length_app, length_wavHeaderChunks; lia).
  split; [exact Hdata |].
  intros -> Hint. rewrite Hdata. now rewrite encoded_at_unit_volume.
Qed.

Lemma samples_reach_the_file_in_order_witness :
  exists w,
    Streaming.record 2 1%float 16000%float
      [Streaming.ReadOk (repeat 258 (Streaming.framesPerBuf * 2))]
      (os_Create (13 + (length (concat [repeat 258 (Streaming.framesPerBuf * 2)])
                        + (4 + 0))))
    = (w, Ok tt)
    /\ firstn 4 (skipn 44 (contents w)) = [x02; x01; x02; x01].
Proof.
  destruct (samples_reach_the_file_in_order 2 1%float 16000%float
              [repeat 258 (Streaming.framesPerBuf * 2)] 0)
    as (w & Hrun & Hdata & _).
  - now right.
  - constructor; [apply repeat_length | constructor].
  - exists w. split; [exact Hrun |]. rewrite Hdata. vm_compute. reflexivity.
Defined.

(** X9.  With two or more channels the patched header tells the truth
    about the sizes: after a session over whole blocks on a healthy
    device, as long as the data stays below 4 GiB, the data-size field is
    the number of bytes after the header and the RIFF chunk size is the
    file length less 8. *)
Theorem header_sizes_match_the_file
        (channels : nat) (volume sampleRate : float) (blocks : list (list Z))
        (q : nat) :
  (1 < channels)%nat ->
  Forall (fun b => length b = (Streaming.framesPerBuf * channels)%nat) blocks ->
  let frames := (Streaming.framesPerBuf * length blocks)%nat in
  36 + 4 * Z.of_nat frames < 2 ^ 32 ->
  exists w,
    Streaming.record channels volume sampleRate
                     (List.map Streaming.ReadOk blocks)
                     (os_Create (13 + (2 * frames + (4 + q))))
    = (w, Ok tt)
    /\ Subchunk2Size (decodeWavHeader (contents w))
       = Z.of_nat (length (contents w)) - 44
    /\ ChunkSize (decodeWavHeader (contents w))
       = Z.of_nat (length (contents w)) - 8.
Proof.
  intros Hch Hall frames Hsmall.
  destruct (record_complete channels volume sampleRate Streaming.framesPerBuf
              blocks q ltac:(lia) Hall)
    as (samples & w & Hrun & Hc & _ & Hn & Hpairs).
  fold frames in Hrun, Hc, Hn.
  assert (Hspf : samplesPerFrame channels = 2%nat)
    by (destruct channels as [|[|n]]; [lia | lia | reflexivity]).
  assert (Hcnt : countedPerFrame channels = 4)
    by (destruct channels as [|[|n]]; [lia | lia | reflexivity]).
  rewrite Hspf in Hrun, Hn. rewrite Hcnt in Hc.
  exists w. split; [exact Hrun |].
  assert (Hlen : length (contents w) = (44 + 4 * frames)%nat).
  { rewrite Hc, !length_overwrite, !length_le32, length_app.
    rewrite (length_concat_pairs samples Hpairs), Hn, length_wavHeaderChunks.
    lia. }
  rewrite Hlen, Hc, decode_patched
    by (rewrite length_app, length_wavHeaderChunks; lia).
  cbn [Subchunk2Size ChunkSize]. rewrite !Z.mod_small by lia. lia.
Qed.

Lemma header_sizes_match_the_file_witness :
  exists w,
    Streaming.record 2 1%float 16000%float
      [Streaming.ReadOk (repeat 7 (Streaming.framesPerBuf * 2))]
      (os_Create (13 + (2 * (Streaming.framesPerBuf * 1) + (4 + 0))))
    = (w, Ok tt)
    /\ Subchunk2Size (decodeWavHeader (contents w))
       = Z.of_nat (length (contents w)) - 44.
Proof.
  destruct (header_sizes_match_the_file 2 1%float 16000%float
              [repeat 7 (Streaming.framesPerBuf * 2)] 0)
    as (w & Hrun & Hd & _).
  - lia.
  - constructor; [apply repeat_length | constructor].
  - reflexivity.
  - exists w. split; assumption.
Defined.

(** X10.  The stereo case reads [buffer[i+1]] unguarded: on a block of
    odd length the loop writes the whole pairs and then panics at the
    last, lone sample; the byte count of the block is lost with it. *)
Theorem stereo_block_of_odd_length_panics
        (volume : float) (buffer : list Z) (k : nat) (total : Z)
        (c : list byte) (q : nat) (h : list FileOp) :
  length buffer = (2 * k + 1)%nat ->
  Streaming.processBlock 2 volume buffer total
                         (mkFile c (length c) (2 * k + q) h)
  = (mkFile (c ++ concat (encoded volume (firstn (2 * k) buffer)))
            (length (c ++ concat (encoded volume (firstn (2 * k) buffer))))
            q
            (h ++ List.map OpWrite (encoded volume (firstn (2 * k) buffer))),
     Panic).
Proof.
  intros Hlen. unfold Streaming.processBlock.
  assert (Hgen : forall k fuel i total c h,
             length buffer = (i + 2 * k + 1)%nat -> (k < fuel)%nat ->
             Streaming.blockLoop 2 volume buffer fuel i total
                                 (mkFile c (length c) (2 * k + q) h)
             = (mkFile
                  (c ++ concat (encoded volume (firstn (2 * k) (skipn i buffer))))
                  (length (c ++ concat (encoded volume
                                          (firstn (2 * k) (skipn i buffer)))))
                  q
                  (h ++ List.map OpWrite
                     (encoded volume (firstn (2 * k) (skipn i buffer)))),
                Panic)).
  { clear. induction k as [|k IH]; intros fuel i total c h Hlen Hfuel;
      (destruct fuel as [|fuel]; [lia |]); cbn [Streaming.blockLoop];
      (destruct (Nat.ltb_spec i (length buffer)) as [_ | Hge]; [| lia]);
      unfold Streaming.frameStep, bind, lift, ret;
      destruct (index_in_range buffer i ltac:(lia)) as (x & Hx & Hn);
      rewrite Hx.
    - unfold index. rewrite (proj2 (nth_error_None buffer (i + 1))) by lia.
      cbn [Nat.mul Nat.add firstn encoded List.map concat].
      now rewrite !app_nil_r.
    - destruct (index_in_range buffer (i + 1) ltac:(lia)) as (y & Hy & Hm).
      rewrite Hy.
      replace (2 * S k + q)%nat with (S (S (2 * k + q))) by lia.
      rewrite !writeSample_at_end.
      rewrite (IH fuel (i + 2)%nat) by lia.
      rewrite (skipn_cons_nth buffer i x Hn).
      replace (i + 1)%nat with (S i) in Hm by lia.
      rewrite (skipn_cons_nth buffer (S i) y Hm).
      replace (i + 2)%nat with (S (S i)) by lia.
      replace (2 * S k)%nat with (S (S (2 * k))) by lia.
      cbn [firstn encoded List.map concat].
      rewrite <- !app_assoc. cbn [app]. reflexivity. }
  rewrite (Hgen k (length buffer) 0%nat) by lia. reflexivity.
Qed.

Lemma stereo_block_of_odd_length_panics_witness :
  Streaming.processBlock 2 1%float [1; 2; 3] 0 (mkFile [] 0 2 [])
  = (mkFile [x01; x00; x02; x00] 4 0
            [OpWrite [x01; x00]; OpWrite [x02; x00]], Panic).
Proof.
  exact (stereo_block_of_odd_length_panics 1%float [1; 2; 3] 1 0 [] 0 []
           eq_refl).
Defined.

(** ** [main] before the file exists *)

Lemma listDevices_spec (channels : nat) (devices : list portaudio.DeviceInfo) :
  forall start i name,
    In (i, name) (StreamingMain.listDevices channels start devices)
    <-> exists dev,
        (start <= i)%nat
        /\ nth_error devices (i - start) = Some dev
        /\ name = portaudio.Name dev
        /\ Z.of_nat channels <= portaudio.MaxInputChannels dev.
Proof.
  induction devices as [|d devices IH]; intros start i name;
    cbn [StreamingMain.listDevices].
  - split; [intros [] | intros (dev & _ & H & _)].
    destruct (i - start)%nat; discriminate.
  - assert (Hrest :
        In (i, name) (StreamingMain.listDevices channels (S start) devices)
        <-> exists dev,
            (start < i)%nat /\ nth_error devices (i - S start) = Some dev
            /\ name = portaudio.Name dev
            /\ Z.of_nat channels <= portaudio.MaxInputChannels dev).
    { rewrite IH. split; intros (dev & H1 & H2); exists dev; split;
        try lia; exact H2. }
    destruct (Z.leb_spec (Z.of_nat channels) (portaudio.MaxInputChannels d))
      as [Hok | Hno]; cbn [In]; rewrite Hrest; split.
    + intros [Heq | (dev & Hlt & Hn & Hname & Hch)].
      * injection Heq as <- <-. exists d. rewrite Nat.sub_diag. auto.
      * exists dev. replace (i - start)%nat with (S (i - S start)) by lia.
        auto with arith.
    + intros (dev & Hle & Hn & Hname & Hch).
      destruct (Nat.eq_dec start i) as [<- | Hne].
      * rewrite Nat.sub_diag in Hn. injection Hn as <-. left. now subst.
      * right. exists dev.
        replace (i - start)%nat with (S (i - S start)) in Hn by lia.
        split; [lia | auto].
    + intros (dev & Hlt & Hn & Hname & Hch). exists dev.
      replace (i - start)%nat with (S (i - S start)) by lia.
      auto with arith.
    + intros (dev & Hle & Hn & Hname & Hch).
      destruct (Nat.eq_dec start i) as [<- | Hne].
      * rewrite Nat.sub_diag in Hn. injection Hn as <-. lia.
      * exists dev.
        replace (i - start)%nat with (S (i - S start)) in Hn by lia.
        split; [lia | auto].
Qed.

(** X11.  Once the device layer is up, the devices [main] lists are
    exactly those with at least [channels] input channels, each under its
    own index in the device list and with its name, however the run goes
    on. *)
Theorem main_lists_capable_devices
        (channels : nat) (volume : float) (host : StreamingMain.Host)
        (devices : list portaudio.DeviceInfo) :
  StreamingMain.Initialize host = None ->
  StreamingMain.Devices host = (devices, None) ->
  forall i name,
    In (i, name) (StreamingMain.listed (StreamingMain.main channels volume host))
    <-> exists dev,
        nth_error devices i = Some dev
        /\ name = portaudio.Name dev
        /\ Z.of_nat channels <= portaudio.MaxInputChannels dev.
Proof.
  intros Hinit Hdev i name.
  assert (Hl : StreamingMain.listed (StreamingMain.main channels volume host)
               = StreamingMain.listDevices channels 0 devices).
  { unfold StreamingMain.main. rewrite Hinit, Hdev.
    destruct (nth_error devices Streaming.deviceIndex) as [device|];
      [| reflexivity].
    destruct (findWorkingSampleRate _ _ _ _ device) as [rate [err|]];
      [reflexivity |].
    destruct (StreamingMain.OpenStream host _); [reflexivity |].
    destruct (StreamingMain.Create host); reflexivity. }
  rewrite Hl, listDevices_spec, Nat.sub_0_r.
  split; intros (dev & H); exists dev; [tauto | split; [lia | tauto]].
Qed.

Lemma main_lists_capable_devices_witness :
  let host :=
    StreamingMain.mkHost None
      ([portaudio.mkDeviceInfo "out"%string 0 0; someDevice], None)
      (supportsOnly []) (fun _ => None) (inr 0%nat) None [] in
  In (1%nat, "mic"%string)
     (StreamingMain.listed (StreamingMain.main 1 1%float host)).
Proof.
  intros host.
  apply (main_lists_capable_devices 1 1%float host
           [portaudio.mkDeviceInfo "out"%string 0 0; someDevice]
           eq_refl eq_refl).
  exists someDevice. repeat split. cbn. lia.
Defined.

(** X12.  [main] gives up before it creates the output file when the
    device list is too short for [deviceIndex] (a panic) and when the
    device there supports none of the candidate rates ([os.ErrInvalid]):
    in both cases no file exists at exit. *)
Theorem main_aborts_before_the_file
        (channels : nat) (volume : float) (host : StreamingMain.Host)
        (devices : list portaudio.DeviceInfo) :
  StreamingMain.Initialize host = None ->
  StreamingMain.Devices host = (devices, None) ->
  ((length devices <= Streaming.deviceIndex)%nat ->
   StreamingMain.status (StreamingMain.main channels volume host) = Panic
   /\ StreamingMain.outFile (StreamingMain.main channels volume host) = None)
  /\ (forall device,
         nth_error devices Streaming.deviceIndex = Some device ->
         forallb (fun r => negb (supports (StreamingMain.IsFormatSupported host)
                                          Streaming.framesPerBuf channels
                                          device r))
                 Streaming.possibleSampleRates = true ->
         StreamingMain.status (StreamingMain.main channels volume host)
         = Fail ErrInvalid
         /\ StreamingMain.outFile (StreamingMain.main channels volume host)
            = None).
Proof.
  intros Hinit Hdev. unfold StreamingMain.main. rewrite Hinit, Hdev. split.
  - intros Hshort.
    rewrite (proj2 (nth_error_None devices Streaming.deviceIndex) Hshort).
    split; reflexivity.
  - intros device Hsel Hnone. rewrite Hsel. unfold findWorkingSampleRate.
    destruct (tryRates_outcome (StreamingMain.IsFormatSupported host)
                Streaming.framesPerBuf channels device
                Streaming.possibleSampleRates)
      as [(before & r & after & Hsplit & Hb & Hs & Ht) | [_ Ht]].
    + rewrite Hsplit, forallb_app in Hnone. cbn [forallb] in Hnone.
      rewrite Hs, Hb in Hnone. discriminate.
    + rewrite Ht. split; reflexivity.
Qed.

Lemma main_aborts_before_the_file_witness :
  let host :=
    StreamingMain.mkHost None ([someDevice], None)
      (supportsOnly []) (fun _ => None) (inr 100%nat) None [] in
  StreamingMain.status (StreamingMain.main 1 1%float host) = Panic
  /\ StreamingMain.outFile (StreamingMain.main 1 1%float host) = None.
Proof.
  intros host.
  apply (proj1 (main_aborts_before_the_file 1 1%float host [someDevice]
                  eq_refl eq_refl)).
  cbn. unfold Streaming.deviceIndex. lia.
Defined.

(** ** More on the negotiation *)

(** X13.  Candidates the device refuses are skipped without a trace, and
    nothing after the first supported candidate matters: a refused prefix
    can be dropped from the list, and a list that yields a rate yields
    the same rate however it is extended; the rate returned is one of the
    candidates and the device supports it. *)
Theorem findWorkingSampleRate_extends :
  forall (IsFormatSupported : portaudio.StreamParameters -> option error)
         (framesPerBuf channels : nat) (dev : portaudio.DeviceInfo)
         (rates more : list float),
    (forallb (fun r => negb (supports IsFormatSupported framesPerBuf channels
                                      dev r)) rates = true ->
     findWorkingSampleRate IsFormatSupported framesPerBuf channels
                           (rates ++ more) dev
     = findWorkingSampleRate IsFormatSupported framesPerBuf channels more dev)
    /\ (forall rate,
           findWorkingSampleRate IsFormatSupported framesPerBuf channels
                                 rates dev = (rate, None) ->
           findWorkingSampleRate IsFormatSupported framesPerBuf channels
                                 (rates ++ more) dev = (rate, None)
           /\ In rate rates
           /\ supports IsFormatSupported framesPerBuf channels dev rate
              = true).
Proof.
  intros probe fpb ch dev rates more. unfold findWorkingSampleRate. split.
  - induction rates as [|r l IH]; intros Hl; [reflexivity |].
    cbn [forallb] in Hl. apply andb_prop in Hl as [Hr Hl].
    cbn [app]. rewrite tryRates_cons.
    apply negb_true_iff in Hr. rewrite Hr. auto.
  - intros rate Hrate.
    destruct (tryRates_outcome probe fpb ch dev rates)
      as [(before & r & after & Hsplit & Hb & Hs & Ht) | [Hn Ht]];
      rewrite Ht in Hrate; [| discriminate].
    injection Hrate as <-. repeat split; auto.
    + rewrite Hsplit, <- app_assoc. cbn [app]. now apply tryRates_first.
    + rewrite Hsplit. apply in_or_app. right. now left.
Qed.

Lemma findWorkingSampleRate_extends_witness :
  findWorkingSampleRate (supportsOnly [48000; 16000]%float) 512 1
                        ([44100] ++ Streaming.possibleSampleRates)%float
                        someDevice
  = findWorkingSampleRate (supportsOnly [48000; 16000]%float) 512 1
                          Streaming.possibleSampleRates someDevice.
Proof.
  apply (proj1 (findWorkingSampleRate_extends
                  (supportsOnly [48000; 16000]%float) 512 1 someDevice
                  [44100]%float Streaming.possibleSampleRates)).
  reflexivity.
Defined.

(** ** The clamp of the buffering recorder, for every gain *)

(** The specification of a float is a NaN only for a NaN. *)
Lemma Prim2SF_nan_iff (f : float) :
  Prim2SF f = S754_nan <-> PrimFloat.is_nan f = true.
Proof.
  unfold Prim2SF. destruct (PrimFloat.is_nan f); [tauto |].
  split; [| discriminate].
  destruct (PrimFloat.is_zero f); [discriminate |].
  destruct (PrimFloat.is_infinity f); [discriminate |].
  destruct (Z.frexp f) as [r e].
  destruct (shr_fexp prec emax (Uint63.to_Z (normfr_mantissa r)) (e - prec)
                     loc_Exact) as [s e'].
  destruct (shr_m s); discriminate.
Qed.

Lemma Prim2SF_of_finite (f : float) :
  PrimFloat.is_finite f = true ->
  (exists s, Prim2SF f = S754_zero s)
  \/ (exists s m e, Prim2SF f = S754_finite s m e).
Proof.
  unfold PrimFloat.is_finite, Prim2SF. intros H.
  apply negb_true_iff, orb_false_iff in H as [Hnan Hinf].
  rewrite Hnan, Hinf.
  destruct (PrimFloat.is_zero f); [left; eauto |].
  destruct (Z.frexp f) as [r e].
  destruct (shr_fexp prec emax (Uint63.to_Z (normfr_mantissa r)) (e - prec)
                     loc_Exact) as [s e'].
  destruct (shr_m s); eauto.
Qed.

Lemma shr_1_nonneg (mrs : shr_record) :
  0 <= shr_m mrs -> 0 <= shr_m (shr_1 mrs).
Proof.
  destruct mrs as [m r s]. cbn [shr_m]. intros Hm.
  destruct m as [|[p|p|]|p]; cbn; lia.
Qed.

Lemma iter_shr_1_nonneg (p : positive) :
  forall mrs, 0 <= shr_m mrs -> 0 <= shr_m (iter_pos shr_1 p mrs).
Proof.
  induction p as [p IH | p IH |]; intros mrs Hm; cbn [iter_pos].
  - apply IH, IH, shr_1_nonneg, Hm.
  - apply IH, IH, Hm.
  - apply shr_1_nonneg, Hm.
Qed.

Lemma shr_fexp_nonneg (m e : Z) (l : location) :
  0 <= m -> 0 <= shr_m (fst (shr_fexp prec emax m e l)).
Proof.
  intros Hm. unfold shr_fexp, shr.
  assert (H0 : 0 <= shr_m (shr_record_of_loc m l))
    by (destruct l as [|[| |]]; exact Hm).
  destruct (fexp prec emax (Zdigits2 m + e) - e); cbn [fst]; auto.
  now apply iter_shr_1_nonneg.
Qed.

Lemma round_nearest_even_nonneg (m : Z) (l : location) :
  0 <= m -> 0 <= round_nearest_even m l.
Proof.
  intros Hm. unfold round_nearest_even.
  destruct l as [|[| |]]; try destruct (Z.even m); lia.
Qed.

(** Rounding a non-negative mantissa never produces a NaN. *)
Lemma binary_round_aux_not_nan (sx : bool) (mx ex : Z) (lx : location) :
  0 <= mx -> binary_round_aux prec emax sx mx ex lx <> S754_nan.
Proof.
  intros Hm. unfold binary_round_aux.
  pose proof (shr_fexp_nonneg mx ex lx Hm) as H1.
  destruct (shr_fexp prec emax mx ex lx) as [mrs' e']. cbn [fst] in H1.
  pose proof (shr_fexp_nonneg
                (round_nearest_even (shr_m mrs') (loc_of_shr_record mrs'))
                e' loc_Exact (round_nearest_even_nonneg _ _ H1)) as H2.
  destruct (shr_fexp prec emax _ e' loc_Exact) as [mrs'' e'']. cbn [fst] in H2.
  destruct (shr_m mrs'') as [|p|p]; [discriminate | | lia].
  destruct (e'' <=? emax - prec); discriminate.
Qed.

(** The product of two finite floats is not a NaN. *)
Lemma mul_finite_not_nan (x y : float) :
  PrimFloat.is_finite x = true -> PrimFloat.is_finite y = true ->
  PrimFloat.is_nan (x * y)%float = false.
Proof.
  intros Hx Hy.
  destruct (PrimFloat.is_nan (x * y)%float) eqn:E; [| reflexivity].
  apply Prim2SF_nan_iff in E. rewrite mul_spec in E. unfold SF64mul in E.
  destruct (Prim2SF_of_finite x Hx) as [[sx Ex] | (sx & mx & ex & Ex)],
    (Prim2SF_of_finite y Hy) as [[sy Ey] | (sy & my & ey & Ey)];
    rewrite Ex, Ey in E; cbn [SFmul] in E; try discriminate.
  now apply binary_round_aux_not_nan in E.
Qed.

(** Comparison in the other direction is the opposite comparison. *)
Lemma SFcompare_antisym (a b : spec_float) :
  SFcompare b a = option_map CompOpp (SFcompare a b).
Proof.
  destruct a as [sa | sa | | sa ma ea], b as [sb | sb | | sb mb eb];
    cbn [SFcompare option_map]; try reflexivity;
    try (destruct sa; reflexivity); try (destruct sb; reflexivity);
    try (destruct sa, sb; reflexivity).
  f_equal. rewrite (Z.compare_antisym ea eb).
  destruct sa, sb; try reflexivity;
    destruct (ea ?= eb) eqn:E; cbn [CompOpp]; try reflexivity.
  - rewrite (Pos.compare_cont_antisym ma mb Eq). reflexivity.
  - rewrite (Pos.compare_cont_antisym ma mb Eq). reflexivity.
Qed.

Lemma SFcompare_total (a b : spec_float) :
  a <> S754_nan -> b <> S754_nan -> exists c, SFcompare a b = Some c.
Proof.
  intros Ha Hb.
  destruct a as [sa | sa | | sa ma ea], b as [sb | sb | | sb mb eb];
    cbn [SFcompare]; try congruence; eauto.
Qed.

(** What is not below is at least, short of a NaN. *)
Lemma not_ltb_leb (x y : float) :
  PrimFloat.is_nan x = false -> PrimFloat.is_nan y = false ->
  (x <? y)%float = false -> (y <=? x)%float = true.
Proof.
  intros Hx Hy. rewrite ltb_spec, leb_spec. unfold SFltb, SFleb.
  assert (Hx' : Prim2SF x <> S754_nan)
    by (rewrite Prim2SF_nan_iff; congruence).
  assert (Hy' : Prim2SF y <> S754_nan)
    by (rewrite Prim2SF_nan_iff; congruence).
  rewrite (SFcompare_antisym (Prim2SF x) (Prim2SF y)).
  destruct (SFcompare_total _ _ Hx' Hy') as [c ->].
  destruct c; cbn; congruence.
Qed.

(** The clamp proper: whatever is not a NaN comes out within [-1, 1]. *)
Lemma clamp_in_range (volume : float) (s : Z) :
  PrimFloat.is_nan (int16ToFloat64 s * volume)%float = false ->
  (-1 <=? Buffered.applyVolume volume s)%float = true
  /\ (Buffered.applyVolume volume s <=? 1)%float = true.
Proof.
  intros Hnan. unfold Buffered.applyVolume. cbv zeta.
  destruct (1 <? int16ToFloat64 s * volume)%float eqn:Hhi;
    [split; reflexivity |].
  destruct (int16ToFloat64 s * volume <? -1)%float eqn:Hlo;
    [split; reflexivity |].
  split; apply not_ltb_leb; auto.
Qed.

Lemma int16ToFloat64_finite (s : Z) :
  is_int16 s -> PrimFloat.is_finite (int16ToFloat64 s) = true.
Proof.
  intros Hs.
  assert (H : forallb (fun x => PrimFloat.is_finite (int16ToFloat64 x))
                      all_int16 = true) by (vm_compute; reflexivity).
  rewrite forallb_forall in H. apply H, In_all_int16, Hs.
Qed.

Lemma recordingLoop_collects (volume : float) (blocks : list (list Z)) :
  forall samples,
    Buffered.recordingLoop volume (List.map Streaming.ReadOk blocks) samples
    = Ok (samples
          ++ List.map (Buffered.applyVolume volume) (concat blocks)).
Proof.
  induction blocks as [|b blocks IH]; intros samples;
    cbn [List.map Buffered.recordingLoop concat].
  - now rewrite app_nil_r.
  - rewrite IH, collect_app, map_app, <- app_assoc. reflexivity.
Qed.

(** X14.  Whatever the finite gain (of either sign, above 1 or not), the
    buffering recorder hands on one sample per captured sample, in order,
    and each lies within [-1, 1]: the product that exceeds the range is
    replaced by the bound, never wrapped. *)
Theorem buffered_samples_are_clamped
        (volume : float) (blocks : list (list Z)) :
  PrimFloat.is_finite volume = true ->
  Forall (Forall is_int16) blocks ->
  exists samples,
    Buffered.recordingLoop volume (List.map Streaming.ReadOk blocks) []
    = Ok samples
    /\ samples = List.map (Buffered.applyVolume volume) (concat blocks)
    /\ length samples = length (concat blocks)
    /\ Forall (fun x => (-1 <=? x)%float = true /\ (x <=? 1)%float = true)
              samples.
Proof.
  intros Hvol Hall. eexists. split; [apply recordingLoop_collects |].
  cbn [app]. split; [reflexivity |]. split; [apply length_map |].
  apply Forall_map, Forall_concat.
  eapply Forall_impl; [| exact Hall]. intros b Hb.
  eapply Forall_impl; [| exact Hb]. intros s Hs. cbv beta.
  apply clamp_in_range, mul_finite_not_nan; [| exact Hvol].
  now apply int16ToFloat64_finite.
Qed.

Lemma buffered_samples_are_clamped_witness :
  exists samples,
    Buffered.recordingLoop 1000%float
      [Streaming.ReadOk [32767; -32768; 0; 12]] [] = Ok samples
    /\ Forall (fun x => (-1 <=? x)%float = true /\ (x <=? 1)%float = true)
              samples.
Proof.
  destruct (buffered_samples_are_clamped 1000%float [[32767; -32768; 0; 12]])
    as (samples & Hrun & _ & _ & Hall).
  - reflexivity.
  - repeat constructor; unfold MinInt16, MaxInt16; lia.
  - exists samples. split; assumption.
Defined.

(** ** Normalisation ([int16ToFloat64]) *)

(** X15.  On every 16-bit sample [int16ToFloat64] is exact enough to be
    undone (multiplying by 32767 and converting back gives the sample), it
    is strictly increasing from each sample to the next, it never exceeds
    1, and it stays at or above -1 for every sample but -32768, which it
    sends just below -1. *)
Theorem int16ToFloat64_normalises (s : Z) :
  is_int16 s ->
  int16_of_float64 (int16ToFloat64 s * float64_of_int MaxInt16)%float = s
  /\ (s < MaxInt16 -> (int16ToFloat64 s <? int16ToFloat64 (s + 1))%float = true)
  /\ (int16ToFloat64 s <=? 1)%float = true
  /\ (-1 <=? int16ToFloat64 s)%float = negb (s =? MinInt16).
Proof.
  intros Hs.
  assert (H : forallb
                (fun x =>
                   (int16_of_float64
                      (int16ToFloat64 x * float64_of_int MaxInt16)%float =? x)
                   && ((MaxInt16 <=? x)
                       || (int16ToFloat64 x <? int16ToFloat64 (x + 1))%float)
                   && (int16ToFloat64 x <=? 1)%float
                   && Bool.eqb (-1 <=? int16ToFloat64 x)%float
                               (negb (x =? MinInt16)))
                all_int16 = true) by (vm_compute; reflexivity).
  rewrite forallb_forall in H. specialize (H s (In_all_int16 s Hs)).
  apply andb_prop in H as [H H4]. apply andb_prop in H as [H H3].
  apply andb_prop in H as [H1 H2].
  repeat split.
  - now apply Z.eqb_eq.
  - intros Hlt. apply orb_prop in H2 as [H2 | H2]; [| exact H2].
    apply Z.leb_le in H2. lia.
  - exact H3.
  - now apply Bool.eqb_prop.
Qed.

Lemma int16ToFloat64_normalises_witness :
  int16_of_float64 (int16ToFloat64 (-12345) * float64_of_int MaxInt16)%float
  = -12345
  /\ (-1 <=? int16ToFloat64 MinInt16)%float = false.
Proof.
  split.
  - apply (int16ToFloat64_normalises (-12345)).
    unfold is_int16, MinInt16, MaxInt16. lia.
  - apply (int16ToFloat64_normalises MinInt16).
    unfold is_int16, MinInt16, MaxInt16. lia.
Defined.

(** ** More on the streamer *)

Lemma drain_from_start (samples : list float) (ch : nat) (sizes : list nat) :
  (1 <= ch)%nat ->
  Buffered.drain samples ch sizes 0
  = Ok (Buffered.pairsOf samples ch 0
          (Nat.min (list_sum sizes) (length samples / ch)),
        (Nat.min (list_sum sizes) (length samples / ch) * ch)%nat).
Proof.
  intros Hch.
  pose proof (drain_spec samples ch Hch sizes 0 ltac:(lia)) as Hd.
  rewrite Nat.sub_0_r in Hd. exact Hd.
Qed.

(** X16.  What the streamer hands out does not depend on how the consumer
    sizes its buffers, only on the room they add up to: any sequence of
    calls yields what a single call with one buffer of the total size
    yields. *)
Theorem streamer_ignores_buffer_sizes
        (samples : list float) (ch : nat) (sizes : list nat) :
  (1 <= ch)%nat ->
  Buffered.drain samples ch sizes 0
  = Buffered.drain samples ch [list_sum sizes] 0.
Proof.
  intros Hch.
  rewrite !drain_from_start by exact Hch.
  change (list_sum [list_sum sizes]) with (list_sum sizes + 0)%nat.
  now rewrite Nat.add_0_r.
Qed.

Lemma streamer_ignores_buffer_sizes_witness :
  Buffered.drain [1; 2; 3; 4; 5]%float 2 [1; 0; 3]%nat 0
  = Buffered.drain [1; 2; 3; 4; 5]%float 2 [list_sum [1; 0; 3]%nat] 0.
Proof.
  apply streamer_ignores_buffer_sizes. lia.
Defined.

Lemma interleave_pairsOf_stereo (samples : list float) :
  forall m k0,
    ((k0 + m) * 2 <= length samples)%nat ->
    Buffered.interleave (Buffered.pairsOf samples 2 k0 m)
    = firstn (m * 2) (skipn (k0 * 2) samples).
Proof.
  induction m as [|m IH]; intros k0 Hlen; [reflexivity |].
  rewrite pairsOf_succ. unfold Buffered.interleave in *.
  cbn [flat_map]. rewrite IH by lia.
  unfold Buffered.frameAt, Buffered.pairOf.
  destruct (index_in_range samples (k0 * 2) ltac:(lia)) as (x & _ & Hx).
  destruct (index_in_range samples (S (k0 * 2)) ltac:(lia)) as (y & _ & Hy).
  rewrite (skipn_cons_nth samples (k0 * 2) x Hx).
  rewrite (skipn_cons_nth samples (S (k0 * 2)) y Hy).
  cbn [firstn nth fst snd app Nat.mul Nat.add]. reflexivity.
Qed.

Lemma pairsOf_mono (samples : list float) :
  forall m k0,
    (k0 + m <= length samples)%nat ->
    Buffered.pairsOf samples 1 k0 m
    = List.map (fun s => (s, s)) (firstn m (skipn k0 samples)).
Proof.
  induction m as [|m IH]; intros k0 Hlen; [reflexivity |].
  rewrite pairsOf_succ, IH by lia.
  unfold Buffered.frameAt, Buffered.pairOf. rewrite Nat.mul_1_r.
  destruct (index_in_range samples k0 ltac:(lia)) as (x & _ & Hx).
  rewrite (skipn_cons_nth samples k0 x Hx).
  cbn [firstn nth List.map]. reflexivity.
Qed.

(** X17.  Given room for all of it, a mono sequence comes out with every
    sample on both sides of its pair, and a stereo sequence comes out
    unchanged: laying the pairs out as left, right, left, right gives the
    samples back, less a lone last sample if the length is odd. *)
Theorem streamer_passes_mono_and_stereo_through
        (samples : list float) (sizes : list nat) :
  ((length samples <= list_sum sizes)%nat ->
   Buffered.drain samples 1 sizes 0
   = Ok (List.map (fun s => (s, s)) samples, length samples))
  /\ ((length samples / 2 <= list_sum sizes)%nat ->
      exists frames,
        Buffered.drain samples 2 sizes 0
        = Ok (frames, (length samples / 2 * 2)%nat)
        /\ Buffered.interleave frames
           = firstn (length samples / 2 * 2) samples).
Proof.
  split; intros Hroom.
  - rewrite drain_from_start by lia.
    rewrite Nat.div_1_r, Nat.min_r by lia.
    rewrite pairsOf_mono by lia. cbn [skipn Nat.add].
    now rewrite firstn_all, Nat.mul_1_r.
  - rewrite drain_from_start by lia.
    rewrite Nat.min_r by lia.
    eexists. split; [reflexivity |].
    rewrite interleave_pairsOf_stereo; [reflexivity |].
    pose proof (Nat.Div0.mul_div_le (length samples) 2). lia.
Qed.

Lemma streamer_passes_mono_and_stereo_through_witness :
  Buffered.drain [0.5; 0.25; 1]%float 1 [2; 2]%nat 0
  = Ok ([(0.5, 0.5); (0.25, 0.25); (1, 1)]%float, 3%nat).
Proof.
  apply (proj1 (streamer_passes_mono_and_stereo_through
                  [0.5; 0.25; 1]%float [2; 2]%nat)).
  cbn. lia.
Defined.

Lemma skipn_update {A} (l : list A) (x : A) :
  forall j n, (j < n)%nat -> skipn n (Buffered.update l j x) = skipn n l.
Proof.
  induction l as [|y l IH]; intros j n Hjn.
  - destruct j; reflexivity.
  - destruct n as [|n]; [lia |]. destruct j as [|j]; cbn; [reflexivity |].
    apply IH. lia.
Qed.

(** A call leaves the slots past its count as they were. *)
Lemma streamLoop_rest (samples : list float) (ch : nat) :
  forall slots j i b r,
    Buffered.streamLoop samples ch slots j i b = Ok r ->
    (j + slots = length b)%nat ->
    (j <= Buffered.n r)%nat
    /\ skipn (Buffered.n r) (Buffered.buf r) = skipn (Buffered.n r) b.
Proof.
  induction slots as [|slots IH]; intros j i b r Hrun Hj;
    cbn [Buffered.streamLoop] in Hrun.
  - injection Hrun as <-. cbn [Buffered.n Buffered.buf]. split; [lia | auto].
  - destruct (length samples <? i + ch)%nat.
    + injection Hrun as <-. cbn [Buffered.n Buffered.buf]. auto.
    + destruct (Buffered.mixFrame samples ch i) as [x | e | |];
        cbn [res_bind] in Hrun; try discriminate.
      apply IH in Hrun as [Hn Hrest]; [| rewrite length_update; lia].
      split; [lia |]. rewrite Hrest. apply skipn_update. lia.
Qed.

(** X18.  One call of the streamer, with the closure at a frame boundary:
    it fills the first [n] slots with the pairs of the next [n] whole
    frames, [n] being the smaller of the buffer length and the frames
    left; it leaves the other slots and the length of the buffer as they
    were; it moves on by [n] frames; and it answers [ok = true] exactly
    when it filled the whole buffer, so a call that delivers the last few
    frames already answers false, and a call with an empty buffer answers
    true even at the end. *)
Theorem streamer_call_protocol
        (samples : list float) (ch k0 : nat) (b : list (float * float)) :
  (1 <= ch)%nat -> (k0 <= length samples / ch)%nat ->
  exists r,
    Buffered.multiChannelStreamer samples ch (k0 * ch) b = Ok r
    /\ Buffered.n r = Nat.min (length b) (length samples / ch - k0)
    /\ firstn (Buffered.n r) (Buffered.buf r)
       = Buffered.pairsOf samples ch k0 (Buffered.n r)
    /\ skipn (Buffered.n r) (Buffered.buf r) = skipn (Buffered.n r) b
    /\ length (Buffered.buf r) = length b
    /\ Buffered.next r = ((k0 + Buffered.n r) * ch)%nat
    /\ (Buffered.ok r = true <-> Buffered.n r = length b).
Proof.
  intros Hch Hk0. unfold Buffered.multiChannelStreamer.
  destruct (streamLoop_spec samples ch Hch (length b) 0 k0 b)
    as (out & Hrun & Hlen & Hfirst); [lia | exact Hk0 |].
  destruct (streamLoop_rest samples ch _ _ _ _ _ Hrun) as [_ Hrest]; [lia |].
  eexists. split; [exact Hrun |].
  cbn [Buffered.n Buffered.buf Buffered.next Buffered.ok Nat.add] in *.
  repeat split; auto.
  - intros Hok. apply Nat.leb_le in Hok. lia.
  - intros Hn. apply Nat.leb_le. lia.
Qed.

Lemma streamer_call_protocol_witness :
  exists r,
    Buffered.multiChannelStreamer [1; 2; 3; 4; 5]%float 2 (1 * 2)
                                  (Buffered.silence 3) = Ok r
    /\ Buffered.n r = 1%nat /\ Buffered.ok r = false.
Proof.
  destruct (streamer_call_protocol [1; 2; 3; 4; 5]%float 2 1
              (Buffered.silence 3))
    as (r & Hrun & Hn & _ & _ & _ & _ & Hok).
  - lia.
  - cbn. lia.
  - exists r. split; [exact Hrun |]. split; [exact Hn |].
    destruct (Buffered.ok r); [| reflexivity].
    rewrite Hn in Hok. cbn in Hok. destruct Hok as [Hok _].
    specialize (Hok eq_refl). discriminate.
Defined.

Lemma streamLoop_zero_channels (samples : list float) :
  forall slots j b,
    (j + slots = length b)%nat ->
    Buffered.streamLoop samples 0 slots j 0 b
    = Ok (Buffered.mkStreamed (firstn j b ++ repeat (nan, nan) slots)
                              (length b) true 0).
Proof.
  induction slots as [|slots IH]; intros j b Hj; cbn [Buffered.streamLoop].
  - cbn [repeat]. rewrite app_nil_r, firstn_all2 by lia. reflexivity.
  - rewrite Nat.add_0_r.
    destruct (Nat.ltb_spec (length samples) 0) as [Hlt | _]; [lia |].
    change (Buffered.mixFrame samples 0 0) with (@Ok (float * float) (nan, nan)).
    cbn [res_bind]. rewrite IH by (rewrite length_update; lia).
    rewrite length_update, firstn_update by lia.
    rewrite <- app_assoc. reflexivity.
Qed.

(** X19.  With a channel count of 0 the streamer never comes to an end:
    whatever the samples, every call fills its whole buffer with NaN
    pairs (0.0 divided by 0.0) and answers [ok = true], so a consumer is
    handed as many pairs as it has room for, and the position stays 0. *)
Theorem streamer_with_no_channels_never_ends
        (samples : list float) (sizes : list nat) :
  Buffered.drain samples 0 sizes 0
  = Ok (repeat (nan, nan) (list_sum sizes), 0%nat).
Proof.
  induction sizes as [|len sizes IH]; [reflexivity |].
  change (list_sum (len :: sizes)) with (len + list_sum sizes)%nat.
  cbn [Buffered.drain]. unfold Buffered.multiChannelStreamer.
  rewrite streamLoop_zero_channels by lia.
  cbn [res_bind Buffered.ok Buffered.next Buffered.n Buffered.buf firstn app].
  rewrite IH. cbn [res_bind fst snd].
  unfold Buffered.silence. rewrite repeat_length.
  rewrite <- (repeat_length (nan, nan) len) at 1. rewrite firstn_all.
  now rewrite repeat_app.
Qed.

(** ** A read that fails *)

(** X20.  A failed read ends the recording loop on the spot with the
    read's error: the file is left as the blocks before the failure left
    it, what would have come after is never looked at, and the byte count
    is dropped; if the loop had already failed, it had failed the same
    way. *)
Theorem failed_read_stops_the_loop
        (channels : nat) (volume : float)
        (before after : list Streaming.capture) (total : Z) (w : File) :
  Streaming.recordingLoop channels volume
                          (before ++ Streaming.ReadFail :: after) total w
  = match Streaming.recordingLoop channels volume before total w with
    | (w', Ok _) => (w', Fail ErrRead)
    | (w', failure) => (w', failure)
    end.
Proof.
  revert total w.
  induction before as [|[buffer|] before IH]; intros total w;
    cbn [app Streaming.recordingLoop].
  - reflexivity.
  - unfold bind.
    destruct (Streaming.processBlock channels volume buffer total w)
      as [w1 [t | e | |]]; auto.
  - reflexivity.
Qed.
